(** * pfhedge.stochastic.rough_bergomi: a shallow embedding

    The module under study, [src/pfhedge/stochastic/rough_bergomi.py], holds one
    function, [generate_rough_bergomi], which turns Gaussian draws into a pair
    of tensors [(spot, variance)].

    Modelling conventions.
    - Tensor entries and Python floats are exact real numbers ([R]): rounding,
      overflow and underflow of IEEE arithmetic are not represented.  The
      statements below therefore avoid what only holds over the reals: they
      do not compare two orders of multiplication, and they do not say that
      a value of [exp] is non-zero or finite.
    - A tensor of shape [(n, m)] is a [list (list R)], row-major by path; the
      tensor of shape [(n, m, 2)] returned by the multivariate sampler is a
      [list (list (R * R))].
    - Python exceptions are values of [exn]; the function is written in a
      state-and-exception monad whose state is the random generator.
    - The random generator is the stream of standard normal values it will
      deliver, together with the number of values consumed so far. *)

From Stdlib Require Import Reals Lra Lia ZArith.
From stdpp Require Import base list.

Open Scope R_scope.

(** ** Exceptions and results *)

Inductive exn : Type :=
| ZeroDivisionError   (* Python float division by zero, [0.0 ** negative] *)
| ValueError          (* argument validation of torch.distributions *)
| RuntimeError        (* shape and argument checks of torch primitives *)
| IndexError.         (* tensor index out of range *)

Inductive result (A : Type) : Type :=
| Ok (a : A)
| Raise (e : exn).
Arguments Ok {A} a.
Arguments Raise {A} e.

Definition result_bind {A B} (r : result A) (k : A -> result B) : result B :=
  match r with
  | Ok a => k a
  | Raise e => Raise e
  end.

Definition result_map {A B} (f : A -> B) (r : result A) : result B :=
  result_bind r (fun a => Ok (f a)).

Fixpoint result_mapM {A B} (f : A -> result B) (l : list A) : result (list B) :=
  match l with
  | [] => Ok []
  | a :: l' =>
      result_bind (f a) (fun b =>
      result_bind (result_mapM f l') (fun bs => Ok (b :: bs)))
  end.

(** ** The random generator and the monad of the function body *)

Record Generator : Type := mkGenerator {
  draws : nat -> R;      (* the k-th standard normal value of the stream *)
  consumed : nat         (* how many values have been taken *)
}.

Definition M (A : Type) : Type := Generator -> result A * Generator.

Definition ret {A} (a : A) : M A := fun g => (Ok a, g).

Definition bind {A B} (m : M A) (k : A -> M B) : M B :=
  fun g =>
    match m g with
    | (Ok a, g') => k a g'
    | (Raise e, g') => (Raise e, g')
    end.

Definition py {A} (r : result A) : M A := fun g => (r, g).

Notation "x <- m ;; k" := (bind m (fun x => k))
  (at level 100, m at next level, right associativity).

(** [_standard_normal(shape)]: the next [n] values of the stream. *)
Definition standard_normal (n : nat) : M (list R) :=
  fun g =>
    (Ok (map (draws g) (seq (consumed g) n)),
     mkGenerator (draws g) (consumed g + n)).

(** ** Python float arithmetic (lines 97-98 and the exponent [1 / a]) *)

(** The value of a Python expression on floats: a float, or a complex number
    (the result of a negative base raised to a fractional power), whose value
    the model does not track. *)
Inductive pynum : Type :=
| PyFloat (x : R)
| PyComplex.

Definition is_integral (y : R) : bool :=
  if Req_EM_T (IZR (Int_part y)) y then true else false.

(** [x ** y] on Python floats. *)
Definition py_pow (x y : R) : result pynum :=
  if Rlt_dec 0 x then Ok (PyFloat (Rpower x y))
  else if Req_EM_T x 0 then
    if Rlt_dec y 0 then Raise ZeroDivisionError
    else if Req_EM_T y 0 then Ok (PyFloat 1)
    else Ok (PyFloat 0)
  else
    if is_integral y then Ok (PyFloat (powerRZ x (Int_part y)))
    else Ok PyComplex.

(** [x / y] with a float divisor. *)
Definition py_truediv (x : pynum) (y : R) : result pynum :=
  if Req_EM_T y 0 then Raise ZeroDivisionError
  else match x with
       | PyFloat a => Ok (PyFloat (a / y))
       | PyComplex => Ok PyComplex
       end.

(** ** torch primitives on real entries *)

(** [torch.pow] on a base that is not negative: [0 ** 0 = 1], [0 ** y = 0] for
    positive [y], [exp (y * ln x)] for positive [x].  A negative base and
    [0 ** negative] give NaN or inf in torch and lie outside the real-valued
    model.  The function calls [torch_pow] only once the covariance matrix has
    been accepted, that is with [dt > 0] and [alpha > -1/2]; every base is then
    positive, or zero with a positive exponent. *)
Definition torch_pow (x y : R) : R :=
  if Req_EM_T x 0 then (if Req_EM_T y 0 then 1 else 0)
  else Rpower x y.

(** [torch.sqrt]; the argument is non-negative wherever the theorems below
    speak about values (torch gives NaN on a negative argument). *)
Definition torch_sqrt (x : R) : R := sqrt x.

(** [torch.arange(start, stop, step)] over the integers. *)
Definition arange (start stop step : Z) : result (list Z) :=
  if (0 <? step)%Z then
    if (start <=? stop)%Z
    then Ok (map (fun k => (start + Z.of_nat k * step)%Z)
                 (seq 0 (Z.to_nat ((stop - start + step - 1) / step))))
    else Raise RuntimeError
  else if (step <? 0)%Z then
    if (stop <=? start)%Z
    then Ok (map (fun k => (start + Z.of_nat k * step)%Z)
                 (seq 0 (Z.to_nat ((start - stop - step - 1) / (- step)))))
    else Raise RuntimeError
  else Raise RuntimeError.

Definition float_truediv (x y : R) : result R :=
  if Req_EM_T y 0 then Raise ZeroDivisionError else Ok (x / y).

(** ** Tensors *)

Abbreviation tensor1 := (list R) (only parsing).
Abbreviation tensor2 := (list (list R)) (only parsing).
Abbreviation tensor3 := (list (list (R * R))) (only parsing).

(** [torch.zeros([n, m])]. *)
Definition zeros2 (n m : nat) : tensor2 := replicate n (replicate m 0).

(** [torch.cat([a, b], dim=-1)] on two tensors with the same number of rows. *)
Definition cat_last (a b : tensor2) : tensor2 := zip_with app a b.

(** Entrywise operations on tensors of one shape, and scalar broadcasts. *)
Definition tmap (f : R -> R) (a : tensor2) : tensor2 := map (map f) a.
Definition tzip (f : R -> R -> R) (a b : tensor2) : tensor2 :=
  zip_with (zip_with f) a b.

(** [t[:, :, c]] for [c = 0] and [c = 1]. *)
Definition select0 (t : tensor3) : tensor2 := map (map fst) t.
Definition select1 (t : tensor3) : tensor2 := map (map snd) t.

(** [t[:, :-1]]. *)
Definition drop_last_col (t : tensor2) : tensor2 :=
  map (fun row => take (length row - 1) row) t.

(** [torch.cumsum(t, dim=1)]. *)
Fixpoint cumsum_from (acc : R) (l : list R) : list R :=
  match l with
  | [] => []
  | x :: l' => (acc + x) :: cumsum_from (acc + x) l'
  end.
Definition cumsum (t : tensor2) : tensor2 := map (cumsum_from 0) t.

(** ** torch.distributions.MultivariateNormal in dimension two *)

Record MultivariateNormal : Type := mkMVN {
  loc : R * R;
  scale_tril : (R * R) * (R * R)   (* lower Cholesky factor of the covariance *)
}.

Definition cholesky2 (a c d : R) : (R * R) * (R * R) :=
  let l11 := sqrt a in
  let l21 := c / l11 in
  ((l11, 0), (l21, sqrt (d - l21 * l21))).

(** The constructor validates its argument: the covariance matrix must be
    symmetric positive definite, otherwise [ValueError].  A complex entry can
    only come from a negative [dt], which is the leading entry of the matrix,
    so such a matrix is rejected as well. *)
Definition new_MultivariateNormal (mu : R * R)
    (cov : (pynum * pynum) * (pynum * pynum)) : result MultivariateNormal :=
  match cov with
  | ((PyFloat a, PyFloat b), (PyFloat c, PyFloat d)) =>
      if Req_EM_T b c then
        if Rlt_dec 0 a then
          if Rlt_dec 0 (a * d - b * c)
          then Ok (mkMVN mu (cholesky2 a c d))
          else Raise ValueError
        else Raise ValueError
      else Raise ValueError
  | _ => Raise ValueError
  end.

(** [_batch_mv(scale_tril, eps)] followed by the shift by [loc]. *)
Definition affine (d : MultivariateNormal) (e : R * R) : R * R :=
  let '((l11, l12), (l21, l22)) := scale_tril d in
  (fst (loc d) + (l11 * fst e + l12 * snd e),
   snd (loc d) + (l21 * fst e + l22 * snd e)).

(** [d.sample([n, m])]: a tensor of shape [(n, m, 2)] built from [2 * n * m]
    standard normal values, read in row-major order. *)
Definition sample (d : MultivariateNormal) (n m : Z) : M tensor3 :=
  if ((n <? 0) || (m <? 0))%Z then py (Raise RuntimeError)
  else
    let N := Z.to_nat n in
    let K := Z.to_nat m in
    eps <- standard_normal (N * K * 2) ;;
    ret (map (fun p =>
           map (fun i => affine d (nth (2 * (p * K + i)) eps 0,
                                   nth (2 * (p * K + i) + 1) eps 0))
               (seq 0 K))
         (seq 0 N)).

(** [torch.randn([n, m])]. *)
Definition randn (n m : Z) : M tensor2 :=
  if ((n <? 0) || (m <? 0))%Z then py (Raise RuntimeError)
  else
    let N := Z.to_nat n in
    let K := Z.to_nat m in
    eps <- standard_normal (N * K) ;;
    ret (map (fun p => map (fun i => nth (p * K + i) eps 0) (seq 0 K))
             (seq 0 N)).

(** ** torch.nn.functional.conv1d, one input of one channel *)

Definition dot (w x : list R) : R := foldr Rplus 0 (zip_with Rmult w x).

(** The cross-correlation of the (already padded) input [x] with kernel [w]. *)
Definition correlate (x w : list R) : list R :=
  map (fun m => dot w (drop m x)) (seq 0 (length x + 1 - length w)).

(** [conv1d(input.repeat(1,1,1), weight.unsqueeze(1), padding=padding)
    .squeeze(0)]: [weight] has one kernel per output channel.  The argument
    checks are those of torch: a negative padding, a weight without output
    channel and a kernel longer than the padded input are refused. *)
Definition conv1d (input : list R) (weight : tensor2) (padding : Z) :
    result tensor2 :=
  if (padding <? 0)%Z then Raise RuntimeError
  else
    match weight with
    | [] => Raise RuntimeError
    | w0 :: _ =>
        let P := Z.to_nat padding in
        let x := replicate P 0 ++ input ++ replicate P 0 in
        if (length x <? length w0)%nat then Raise RuntimeError
        else Ok (map (correlate x) weight)
    end.

(** [row[idx]] with an index tensor: negative indices count from the end. *)
Definition index_row (idx : list Z) (row : list R) : result (list R) :=
  result_mapM (fun i =>
    let j := if (i <? 0)%Z then (i + Z.of_nat (length row))%Z else i in
    if (j <? 0)%Z then Raise IndexError
    else match row !! Z.to_nat j with
         | Some v => Ok v
         | None => Raise IndexError
         end) idx.

(** ** The function body, line by line *)

(** Modelled from the spec: [cast_state] lives in [pfhedge.stochastic._utils],
    which is not part of the sources at hand.  It turns each entry of a tuple
    into a tensor of the requested numeric precision and device; the spec puts
    that plumbing out of scope, and on exact reals it leaves the values as
    they are. *)
Definition cast_state {A : Type} (state : A) : A := state.

(** Line 111: [_Y1]. *)
Definition Y1 (n_paths : Z) (dW1 : tensor3) : tensor2 :=
  cat_last (zeros2 (Z.to_nat n_paths) 1) (select1 dW1).

(** Lines 114-116: [discrete_TBSS_fn(k, a)] on a tensor [k]. *)
Definition discrete_TBSS_fn (k : tensor1) (a : R) : result tensor1 :=
  let base :=
    map (fun x => (torch_pow x (a + 1) - torch_pow (x - 1) (a + 1)) / (a + 1))
        k in
  result_bind (float_truediv 1 a) (fun e =>
  Ok (map (fun b => torch_pow b e) base)).

(** Lines 117-121: [_gamma]. *)
Definition gamma (alpha : R) (n_steps : Z) : result tensor1 :=
  result_bind (arange 2 n_steps 1) (fun ks =>
  result_bind (discrete_TBSS_fn (map IZR ks) alpha) (fun tbss =>
  Ok ([0; 0] ++
      map (fun t => torch_pow (t / IZR (n_steps - 1)) alpha) tbss))).

(** Lines 122-127: [_GXi_convolve].  [_Xi.size(1)] is the second dimension
    [n_steps - 1] of the shape [dW1] was sampled with. *)
Definition GXi_convolve (_gamma : tensor1) (_Xi : tensor2) (n_steps : Z) :
    result tensor2 :=
  conv1d (reverse _gamma) _Xi ((n_steps - 1) - 1).

(** Line 128: [_Y2]. *)
Definition Y2 (_GXi_convolve : tensor2) (n_steps : Z) : result tensor2 :=
  result_bind (arange (-1) (-1 - n_steps) (-1)) (fun idx =>
  result_mapM (index_row idx) _GXi_convolve).

(** Line 129: [Y]. *)
Definition Y (alpha_tensor : R) (_Y1 _Y2 : tensor2) : tensor2 :=
  tmap (fun s => torch_sqrt (2 * alpha_tensor + 1) * s) (tzip Rplus _Y1 _Y2).

(** Line 130: [dB]. *)
Definition dB (rho_tensor : R) (dW1 : tensor3) (dW2 : tensor2) : tensor2 :=
  tzip Rplus
    (tmap (fun x => rho_tensor * x) (select0 dW1))
    (tmap (fun x => torch_sqrt (1 - rho_tensor * rho_tensor) * x) dW2).

(** Lines 131-137: [variance]; the drift row is broadcast over the paths. *)
Definition variance (V0 eta_tensor alpha_tensor dt : R) (n_steps : Z)
    (y : tensor2) : result tensor2 :=
  result_bind (arange 0 n_steps 1) (fun ts =>
  let drift :=
    map (fun i => 0.5 * (eta_tensor * eta_tensor)
                  * torch_pow (IZR i * dt) (2 * alpha_tensor + 1)) ts in
  Ok (map (fun row =>
             zip_with (fun s d => V0 * exp (eta_tensor * s - d)) row drift)
          y)).

(** Line 139: [_increments]. *)
Definition increments (dt : R) (var db : tensor2) : tensor2 :=
  tzip (fun v b => torch_sqrt v * b - 0.5 * v * dt) (drop_last_col var) db.

(** Lines 140-144: [_integral], [log_return], [prices]. *)
Definition log_return (n_paths : Z) (_increments : tensor2) : tensor2 :=
  cat_last (zeros2 (Z.to_nat n_paths) 1) (cumsum _increments).

Definition prices (S0 : R) (_log_return : tensor2) : tensor2 :=
  tmap (fun l => S0 * exp l) _log_return.

(** ** generate_rough_bergomi *)

(** Modelled from the spec: the named tuple [SpotVarianceTuple] is declared in
    [pfhedge.stochastic.heston], which is not part of the sources at hand; it
    is the result pair [(spot, variance)] of two tensors. *)
Module SpotVarianceTuple.

Record t : Type := mk { spot : tensor2; variance : tensor2 }.

End SpotVarianceTuple.

(** Lines 109-146: everything after the two sampling calls, a deterministic
    transform of the sampled tensors. *)
Definition generate_from_increments (n_paths n_steps : Z)
    (init_state : R * R) (alpha alpha_tensor rho_tensor eta_tensor dt : R)
    (dW1 : tensor3) (dW2 : tensor2) : result SpotVarianceTuple.t :=
  let dW2 := tmap (fun x => x * torch_sqrt dt) dW2 in
  let _Y1 := Y1 n_paths dW1 in
  result_bind (gamma alpha n_steps) (fun _gamma =>
  let _Xi := select0 dW1 in
  result_bind (GXi_convolve _gamma _Xi n_steps) (fun _GXi_convolve =>
  result_bind (Y2 _GXi_convolve n_steps) (fun _Y2 =>
  let y := Y alpha_tensor _Y1 _Y2 in
  let db := dB rho_tensor dW1 dW2 in
  result_bind
    (variance (snd init_state) eta_tensor alpha_tensor dt n_steps y)
    (fun var =>
  let _increments := increments dt var db in
  let _log_return := log_return n_paths _increments in
  Ok (SpotVarianceTuple.mk (prices (fst init_state) _log_return) var))))).

(** Lines 89-90: the default initial state. *)
Definition init_or_default (init_state : option (R * R)) (xi : R) : R * R :=
  match init_state with
  | None => (1, xi)
  | Some s => s
  end.

(** Lines 97-105: the covariance entries, computed on Python floats, and the
    bivariate normal distribution built from them. *)
Definition new_dW1_generator (dt alpha : R) : result MultivariateNormal :=
  result_bind (py_pow dt (alpha + 1)) (fun p1 =>
  result_bind (py_truediv p1 (alpha + 1)) (fun _dW1_cov1 =>
  result_bind (py_pow dt (2 * alpha + 1)) (fun p2 =>
  result_bind (py_truediv p2 (2 * alpha + 1)) (fun _dW1_cov2 =>
  new_MultivariateNormal (0, 0)
    ((PyFloat dt, _dW1_cov1), (_dW1_cov1, _dW1_cov2)))))).

Definition generate_rough_bergomi (n_paths n_steps : Z)
    (init_state : option (R * R)) (alpha rho eta xi dt : R) :
    M SpotVarianceTuple.t :=
  let init_state := cast_state (init_or_default init_state xi) in
  let '(alpha_tensor, rho_tensor, eta_tensor) := cast_state (alpha, rho, eta) in
  _dW1_generator <- py (new_dW1_generator dt alpha) ;;
  dW1 <- sample _dW1_generator n_paths (n_steps - 1) ;;
  dW2 <- randn n_paths (n_steps - 1) ;;
  py (generate_from_increments n_paths n_steps init_state alpha
        alpha_tensor rho_tensor eta_tensor dt dW1 dW2).

(** ** The direct causal sum of the specification *)

(** [sum_below n f] is the sum of [f j] over [j < n]. *)
Fixpoint sum_below (n : nat) (f : nat -> R) : R :=
  match n with
  | O => 0
  | S n' => sum_below n' f + f n'
  end.

(** The second Volterra component as the specification words it: the sum over
    [j < i] of [gamma[i - j] * dW1[j]].  Entries are read with [nth], which
    gives [0] outside the list. *)
Definition causal_sum (g xi : list R) (i : nat) : R :=
  sum_below i (fun j => nth (i - j) g 0 * nth j xi 0).

(** The kernel weight as the specification words it, with real powers:
    [TBSS(k, a) = ((k^(a+1) - (k-1)^(a+1)) / (a+1))^(1/a)] and
    [gamma[k] = (TBSS(k, a) / (T - 1))^a]. *)
Definition TBSS (k : nat) (a : R) : R :=
  Rpower ((Rpower (INR k) (a + 1) - Rpower (INR k - 1) (a + 1)) / (a + 1))
         (1 / a).

Definition kernel_weight (a : R) (T : Z) (k : nat) : R :=
  Rpower (TBSS k a / IZR (T - 1)) a.

(** The input handed to [conv1d] once padded: [padding] zeros on each side of
    the reversed kernel weights. *)
Definition padded_input (g : list R) (n_steps : Z) : list R :=
  replicate (Z.to_nat (n_steps - 2)) 0 ++ reverse g ++
  replicate (Z.to_nat (n_steps - 2)) 0.

(** The tensors the two sampling calls return on generator [g]. *)
Definition dW1_of (d : MultivariateNormal) (N K : nat) (g : Generator) :
    tensor3 :=
  map (fun p =>
         map (fun i =>
                affine d (draws g (consumed g + 2 * (p * K + i)),
                          draws g (consumed g + (2 * (p * K + i) + 1))))
             (seq 0 K))
      (seq 0 N).

Definition dW2_of (N K : nat) (g : Generator) : tensor2 :=
  map (fun p => map (fun i => draws g (consumed g + (p * K + i))) (seq 0 K))
      (seq 0 N).

(** The covariance entries of lines 97-98 for a positive [dt]. *)
Definition cov1 (dt alpha : R) : R := Rpower dt (alpha + 1) / (alpha + 1).
Definition cov2 (dt alpha : R) : R :=
  Rpower dt (2 * alpha + 1) / (2 * alpha + 1).

Definition dW1_generator (dt alpha : R) : MultivariateNormal :=
  mkMVN (0, 0) (cholesky2 dt (cov1 dt alpha) (cov2 dt alpha)).

(** The value of [gamma] and of [variance] when no exception is raised. *)
Definition gamma_entry (alpha : R) (n_steps : Z) (k : Z) : R :=
  torch_pow
    (torch_pow
       ((torch_pow (IZR k) (alpha + 1) - torch_pow (IZR k - 1) (alpha + 1))
        / (alpha + 1))
       (1 / alpha)
     / IZR (n_steps - 1))
    alpha.

Definition gamma_list (alpha : R) (n_steps : Z) : list R :=
  [0; 0] ++
  map (gamma_entry alpha n_steps)
      (map (fun k => (2 + Z.of_nat k)%Z) (seq 0 (Z.to_nat (n_steps - 2)))).

Definition drift (eta alpha dt : R) (i : nat) : R :=
  0.5 * (eta * eta) * torch_pow (INR i * dt) (2 * alpha + 1).

Definition variance_rows (V0 eta alpha dt : R) (n_steps : Z) (y : tensor2) :
    tensor2 :=
  map (fun row =>
         zip_with (fun s d => V0 * exp (eta * s - d)) row
                  (map (drift eta alpha dt) (seq 0 (Z.to_nat n_steps))))
      y.

(** The second Volterra component computed by the direct causal sum. *)
Definition Y2_direct (g : list R) (n_steps : Z) (_Xi : tensor2) : tensor2 :=
  map (fun xi => map (causal_sum g xi) (seq 0 (Z.to_nat n_steps))) _Xi.

(** The Volterra tensor [Y] with its second component written as the direct
    causal sum. *)
Definition volterra (n_paths n_steps : Z) (alpha : R) (dW1 : tensor3) :
    tensor2 :=
  Y alpha (Y1 n_paths dW1)
    (Y2_direct (gamma_list alpha n_steps) n_steps (select0 dW1)).

(** The tuple returned on sampled tensors [dW1] and [dW2]. *)
Definition paths (n_paths n_steps : Z) (init_state : R * R)
    (alpha rho eta dt : R) (dW1 : tensor3) (dW2 : tensor2) :
    SpotVarianceTuple.t :=
  let var := variance_rows (snd init_state) eta alpha dt n_steps
               (volterra n_paths n_steps alpha dW1) in
  let db := dB rho dW1 (tmap (fun x => x * torch_sqrt dt) dW2) in
  SpotVarianceTuple.mk
    (prices (fst init_state)
       (log_return n_paths (increments dt var db)))
    var.

(** The sampled tensors of a call on generator [g], and the generator the call
    leaves behind. *)
Definition dW1_at (n_paths n_steps : Z) (alpha dt : R) (g : Generator) :
    tensor3 :=
  dW1_of (dW1_generator dt alpha) (Z.to_nat n_paths) (Z.to_nat (n_steps - 1)) g.

Definition dW2_at (n_paths n_steps : Z) (g : Generator) : tensor2 :=
  dW2_of (Z.to_nat n_paths) (Z.to_nat (n_steps - 1))
    (mkGenerator (draws g)
       (consumed g + Z.to_nat n_paths * Z.to_nat (n_steps - 1) * 2)).

Definition after_draws (n_paths n_steps : Z) (g : Generator) : Generator :=
  mkGenerator (draws g)
    (consumed g + Z.to_nat n_paths * Z.to_nat (n_steps - 1) * 2
     + Z.to_nat n_paths * Z.to_nat (n_steps - 1)).

(** ** Vocabulary of the statements *)

(** The entry [t[p, i]]. *)
Definition entry {A : Type} (t : list (list A)) (p i : nat) : option A :=
  match t !! p with
  | Some row => row !! i
  | None => None
  end.

(** A tensor of shape [(n, m)]. *)
Definition has_shape {A : Type} (n m : nat) (t : list (list A)) : Prop :=
  length t = n /\ Forall (fun row => length row = m) t.

(** The valid parameter sets of the specification. *)
Definition valid_parameters (n_paths n_steps : Z)
    (alpha rho eta xi dt : R) : Prop :=
  (1 <= n_paths)%Z /\ (1 <= n_steps)%Z /\ 0 < dt /\ -1 <= rho <= 1 /\
  0 < eta /\ 0 < xi /\ -1 / 2 < alpha < 0.

(** Two generators deliver the same next [n] values. *)
Definition same_draws (n : nat) (g1 g2 : Generator) : Prop :=
  consumed g1 = consumed g2 /\
  forall k, (k < n)%nat ->
    draws g1 (consumed g1 + k) = draws g2 (consumed g2 + k).

(** A concrete generator, used to instantiate the statements: its stream is
    [0, 1, -2, 3, -4, ...] scaled by one half. *)
Definition example_generator : Generator :=
  mkGenerator (fun k => if Nat.even k then - INR k / 2 else INR k / 2) 0.

(** A generator that agrees with [example_generator] on its first hundred
    values only. *)
Definition example_generator_cut : Generator :=
  mkGenerator
    (fun k => if (k <? 100)%nat then draws example_generator k else 7) 0.

(** ** One path at a time *)

(** The rows of the returned tensors as functions of the rows [r1] of [dW1]
    and [r2] of [dW2] of the same path. *)
Definition path_Y (n_steps : Z) (alpha : R) (r1 : list (R * R)) : list R :=
  map (fun s => torch_sqrt (2 * alpha + 1) * s)
    (zip_with Rplus (0 :: map snd r1)
       (map (causal_sum (gamma_list alpha n_steps) (map fst r1))
            (seq 0 (Z.to_nat n_steps)))).

Definition path_variance (V0 eta alpha dt : R) (n_steps : Z)
    (r1 : list (R * R)) : list R :=
  zip_with (fun s d => V0 * exp (eta * s - d)) (path_Y n_steps alpha r1)
    (map (drift eta alpha dt) (seq 0 (Z.to_nat n_steps))).

Definition path_dB (rho dt : R) (r1 : list (R * R)) (r2 : list R) : list R :=
  zip_with Rplus
    (map (fun x => rho * x) (map fst r1))
    (map (fun x => torch_sqrt (1 - rho * rho) * x)
       (map (fun x => x * torch_sqrt dt) r2)).

Definition path_increments (dt : R) (vrow brow : list R) : list R :=
  zip_with (fun v b => torch_sqrt v * b - 0.5 * v * dt)
    (take (length vrow - 1) vrow) brow.

Definition path_spot (S0 dt : R) (vrow brow : list R) : list R :=
  map (fun l => S0 * exp l)
    (0 :: cumsum_from 0 (path_increments dt vrow brow)).

(** * Properties *)

(** ** Sums *)

Lemma sum_below_ext n f h :
  (forall k, (k < n)%nat -> f k = h k) -> sum_below n f = sum_below n h.
Proof.
  induction n as [|n IH]; intros E; simpl; [reflexivity|].
  rewrite IH by (intros; apply E; lia). rewrite E by lia. reflexivity.
Qed.

Lemma sum_below_zero n f :
  (forall k, (k < n)%nat -> f k = 0) -> sum_below n f = 0.
Proof.
  induction n as [|n IH]; intros E; simpl; [reflexivity|].
  rewrite IH by (intros; apply E; lia). rewrite E by lia. lra.
Qed.

Lemma sum_below_shift n f :
  sum_below (S n) f = f O + sum_below n (fun k => f (S k)).
Proof.
  induction n as [|n IH]; simpl in *; [lra|]. rewrite IH. lra.
Qed.

(** Terms beyond a cut-off that vanish can be left out. *)
Lemma sum_below_cut n m f :
  (m <= n)%nat -> (forall k, (m <= k < n)%nat -> f k = 0) ->
  sum_below n f = sum_below m f.
Proof.
  intros Hmn. induction n as [|n IH]; intros E.
  - replace m with O by lia. reflexivity.
  - destruct (decide (m = S n)) as [->|Hne]; [reflexivity|].
    simpl. rewrite IH by (try lia; intros; apply E; lia).
    rewrite (E n) by lia. lra.
Qed.

Lemma dot_sum (w x : list R) :
  dot w x = sum_below (length w) (fun k => nth k w 0 * nth k x 0).
Proof.
  revert x. induction w as [|a w IH]; intros x; [reflexivity|].
  cbn [length]. rewrite sum_below_shift. destruct x as [|b x]; simpl.
  - unfold dot. simpl. rewrite sum_below_zero; [lra|].
    intros k _. destruct k; lra.
  - unfold dot in *. simpl. rewrite IH. reflexivity.
Qed.

(** ** The convolution *)

Lemma nth_padded (g : list R) (P n : nat) :
  nth n (replicate P 0 ++ reverse g ++ replicate P 0) 0 =
  if decide (P <= n < P + length g)%nat then nth (length g - 1 - (n - P)) g 0 else 0.
Proof.
  rewrite nth_lookup. destruct (decide _) as [H|H].
  - rewrite lookup_app_r by (rewrite length_replicate; lia).
    rewrite length_replicate, lookup_app_l by (rewrite length_reverse; lia).
    rewrite reverse_lookup by lia. rewrite nth_lookup.
    f_equal. f_equal. lia.
  - destruct (decide (n < P)%nat).
    + rewrite lookup_app_l by (rewrite length_replicate; lia).
      rewrite lookup_replicate_2 by lia. reflexivity.
    + rewrite lookup_app_r by (rewrite length_replicate; lia).
      rewrite length_replicate, lookup_app_r by (rewrite length_reverse; lia).
      rewrite length_reverse.
      destruct (replicate P 0 !! _) eqn:E; [|reflexivity].
      apply lookup_replicate_1 in E as [-> _]. reflexivity.
Qed.

Lemma nth_drop (x : list R) m k : nth k (drop m x) 0 = nth (m + k) x 0.
Proof. rewrite !nth_lookup, lookup_drop. reflexivity. Qed.

Lemma arange_up (a b : Z) :
  (a <= b)%Z ->
  arange a b 1 = Ok (map (fun k => (a + Z.of_nat k)%Z) (seq 0 (Z.to_nat (b - a)))).
Proof.
  intros H. unfold arange. simpl.
  destruct (Z.leb_spec a b); [|lia].
  replace (b - a + 1 - 1)%Z with (b - a)%Z by lia. rewrite Z.div_1_r.
  f_equal. apply map_ext. intros k. lia.
Qed.

Lemma arange_down (n : Z) :
  (0 <= n)%Z ->
  arange (-1) (-1 - n) (-1) =
  Ok (map (fun k => (-1 - Z.of_nat k)%Z) (seq 0 (Z.to_nat n))).
Proof.
  intros H. unfold arange. simpl.
  destruct (Z.leb_spec (-1 - n) (-1)); [|lia].
  replace (-1 - (-1 - n) - -1 - 1)%Z with n by lia.
  change (- -1)%Z with 1%Z. rewrite Z.div_1_r.
  f_equal. apply map_ext. intros k. lia.
Qed.

Lemma result_mapM_map_Ok {A B C} (f : B -> result C) (u : A -> B)
    (h : A -> C) (l : list A) :
  (forall a, a ∈ l -> f (u a) = Ok (h a)) ->
  result_mapM f (map u l) = Ok (map h l).
Proof.
  induction l as [|a l IH]; intros E; [reflexivity|].
  simpl. rewrite E by left. simpl. rewrite IH; [reflexivity|].
  intros b Hb. apply E. right. exact Hb.
Qed.

Lemma index_row_rev (row : list R) (n : nat) :
  (n <= length row)%nat ->
  index_row (map (fun k => (-1 - Z.of_nat k)%Z) (seq 0 n)) row =
  Ok (map (fun i => nth (length row - 1 - i) row 0) (seq 0 n)).
Proof.
  intros H. unfold index_row. apply result_mapM_map_Ok.
  intros i Hi. apply elem_of_seq in Hi.
  destruct (Z.ltb_spec (-1 - Z.of_nat i) 0); [|lia].
  destruct (Z.ltb_spec (-1 - Z.of_nat i + Z.of_nat (length row)) 0); [lia|].
  replace (Z.to_nat (-1 - Z.of_nat i + Z.of_nat (length row)))
    with (length row - 1 - i)%nat by lia.
  destruct (lookup_lt_is_Some_2 row (length row - 1 - i)) as [v Hv]; [lia|].
  rewrite Hv. f_equal. symmetry. apply nth_lookup_Some. exact Hv.
Qed.

Lemma correlate_lookup (x w : list R) (m : nat) :
  (m < length x + 1 - length w)%nat ->
  nth m (correlate x w) 0 = dot w (drop m x).
Proof.
  intros H. unfold correlate. apply nth_lookup_Some.
  rewrite list_lookup_fmap, lookup_seq_lt by lia. reflexivity.
Qed.

Lemma length_correlate (x w : list R) :
  length (correlate x w) = (length x + 1 - length w)%nat.
Proof. unfold correlate. rewrite length_map, length_seq. reflexivity. Qed.

(** One output channel of the convolution, read backwards. *)
Lemma conv_row_causal (g w : list R) (T i : nat) :
  (2 <= T)%nat -> length g = T -> length w = (T - 1)%nat ->
  nth 0 g 0 = 0 -> (i < T)%nat ->
  let x := replicate (T - 2) 0 ++ reverse g ++ replicate (T - 2) 0 in
  nth (length (correlate x w) - 1 - i) (correlate x w) 0 = causal_sum g w i.
Proof.
  intros HT Hg Hw Hg0 Hi x.
  assert (Hx : length x = (3 * T - 4)%nat).
  { unfold x. rewrite !length_app, !length_replicate, length_reverse. lia. }
  rewrite length_correlate, Hx, Hw.
  rewrite correlate_lookup by lia.
  rewrite dot_sum, Hw. unfold causal_sum.
  rewrite (sum_below_ext _ _ (fun k =>
     if decide (k <= i)%nat then nth (i - k) g 0 * nth k w 0 else 0)).
  2:{ intros k Hk. rewrite nth_drop. unfold x. rewrite nth_padded, Hg.
      destruct (decide (k <= i)%nat), (decide _); try lia; [|lra].
      replace (T - 1 - (3 * T - 4 + 1 - (T - 1) - 1 - i + k - (T - 2)))%nat
        with (i - k)%nat by lia. lra. }
  destruct (decide (i = T - 1)%nat) as [->|Hne].
  - apply sum_below_ext. intros k Hk. destruct (decide _); [reflexivity|lia].
  - rewrite (sum_below_cut _ (S i)); [|lia|].
    2:{ intros k Hk. destruct (decide _); [lia|reflexivity]. }
    simpl. destruct (decide (i <= i)%nat); [|lia].
    rewrite Nat.sub_diag, Hg0, Rmult_0_l, Rplus_0_r.
    apply sum_below_ext. intros k Hk. destruct (decide _); [reflexivity|lia].
Qed.

Lemma GXi_convolve_Ok (g : list R) (Xi : tensor2) (n_steps : Z) :
  (2 <= n_steps)%Z -> length g = Z.to_nat n_steps -> Xi <> [] ->
  Forall (fun r => length r = Z.to_nat (n_steps - 1)) Xi ->
  GXi_convolve g Xi n_steps = Ok (map (correlate (padded_input g n_steps)) Xi).
Proof.
  intros HT Hg Hne Hshape. unfold GXi_convolve, conv1d.
  destruct (Z.ltb_spec (n_steps - 1 - 1) 0); [lia|].
  destruct Xi as [|w0 Xi]; [congruence|].
  replace (n_steps - 1 - 1)%Z with (n_steps - 2)%Z by lia.
  fold (padded_input g n_steps).
  apply Forall_cons in Hshape as [Hw0 _].
  destruct (Nat.ltb_spec (length (padded_input g n_steps)) (length w0))
    as [Hlt|_]; [|reflexivity].
  unfold padded_input in Hlt.
  rewrite !length_app, !length_replicate, length_reverse in Hlt. lia.
Qed.

Lemma Y2_causal (g : list R) (Xi : tensor2) (n_steps : Z) :
  (2 <= n_steps)%Z -> length g = Z.to_nat n_steps ->
  Forall (fun r => length r = Z.to_nat (n_steps - 1)) Xi ->
  nth 0 g 0 = 0 ->
  Y2 (map (correlate (padded_input g n_steps)) Xi) n_steps =
  Ok (map (fun xi => map (causal_sum g xi) (seq 0 (Z.to_nat n_steps))) Xi).
Proof.
  intros HT Hg Hshape Hg0. unfold Y2.
  rewrite arange_down by lia. simpl.
  apply result_mapM_map_Ok. intros w Hw.
  rewrite Forall_forall in Hshape. specialize (Hshape w Hw).
  assert (Hlen : length (correlate (padded_input g n_steps) w)
                 = (2 * Z.to_nat n_steps - 2)%nat).
  { rewrite length_correlate. unfold padded_input.
    rewrite !length_app, !length_replicate, length_reverse. lia. }
  rewrite index_row_rev by lia. f_equal.
  apply map_ext_in. intros i Hi. apply in_seq in Hi.
  unfold padded_input. replace (Z.to_nat (n_steps - 2)) with (Z.to_nat n_steps - 2)%nat by lia.
  apply conv_row_causal; first [lia | exact Hg0].
Qed.

(** ** The sampling calls *)

Lemma covariance_positive_definite (dt alpha : R) :
  0 < dt -> -1 / 2 < alpha -> alpha <> 0 ->
  0 < dt * cov2 dt alpha - cov1 dt alpha * cov1 dt alpha.
Proof.
  intros Hdt Ha Ha0. unfold cov1, cov2.
  set (P := Rpower dt (alpha + 1)). set (Q := Rpower dt (2 * alpha + 1)).
  assert (HP : 0 < P) by apply exp_pos.
  assert (HPQ : dt * Q = P * P).
  { unfold P, Q. rewrite <- (Rpower_1 dt) at 1 by exact Hdt.
    rewrite <- !Rpower_plus. f_equal. lra. }
  replace (dt * (Q / (2 * alpha + 1)) - P / (alpha + 1) * (P / (alpha + 1)))
    with ((P * P) * (alpha * alpha / ((2 * alpha + 1) * ((alpha + 1) * (alpha + 1))))).
  2:{ transitivity ((dt * Q) / (2 * alpha + 1)
                      - (P * P) / ((alpha + 1) * (alpha + 1))).
      - rewrite HPQ. field. split; lra.
      - field. split; lra. }
  apply Rmult_lt_0_compat; [nra|].
  apply Rdiv_lt_0_compat; [nra|].
  apply Rmult_lt_0_compat; [lra|nra].
Qed.

Lemma py_pow_pos (x y : R) : 0 < x -> py_pow x y = Ok (PyFloat (Rpower x y)).
Proof. intros H. unfold py_pow. destruct (Rlt_dec 0 x); [reflexivity|lra]. Qed.

Lemma py_truediv_float (a y : R) :
  y <> 0 -> py_truediv (PyFloat a) y = Ok (PyFloat (a / y)).
Proof.
  intros H. unfold py_truediv. destruct (Req_EM_T y 0); [lra|reflexivity].
Qed.

Lemma new_MultivariateNormal_Ok (dt alpha : R) :
  0 < dt -> -1 / 2 < alpha -> alpha <> 0 ->
  new_MultivariateNormal (0, 0)
    ((PyFloat dt, PyFloat (cov1 dt alpha)),
     (PyFloat (cov1 dt alpha), PyFloat (cov2 dt alpha)))
  = Ok (dW1_generator dt alpha).
Proof.
  intros Hdt Ha Ha0. unfold new_MultivariateNormal.
  destruct (Req_EM_T _ _) as [_|N]; [|congruence].
  destruct (Rlt_dec 0 dt); [|lra].
  destruct (Rlt_dec 0 _) as [_|N]; [reflexivity|].
  exfalso. apply N. apply covariance_positive_definite; assumption.
Qed.

Lemma nth_draws (g : Generator) (n k : nat) :
  (k < n)%nat ->
  nth k (map (draws g) (seq (consumed g) n)) 0 = draws g (consumed g + k).
Proof.
  intros H. apply nth_lookup_Some.
  rewrite list_lookup_fmap, lookup_seq_lt by lia. reflexivity.
Qed.

Lemma sample_Ok (d : MultivariateNormal) (n m : Z) (g : Generator) :
  (0 <= n)%Z -> (0 <= m)%Z ->
  sample d n m g =
  (Ok (dW1_of d (Z.to_nat n) (Z.to_nat m) g),
   mkGenerator (draws g) (consumed g + Z.to_nat n * Z.to_nat m * 2)).
Proof.
  intros Hn Hm. unfold sample.
  destruct (Z.ltb_spec n 0); [lia|]. destruct (Z.ltb_spec m 0); [lia|].
  simpl. unfold bind, standard_normal, ret. f_equal. f_equal.
  unfold dW1_of. apply map_ext_in. intros p Hp. apply in_seq in Hp.
  apply map_ext_in. intros i Hi. apply in_seq in Hi.
  rewrite !nth_draws by nia. reflexivity.
Qed.

Lemma randn_Ok (n m : Z) (g : Generator) :
  (0 <= n)%Z -> (0 <= m)%Z ->
  randn n m g =
  (Ok (dW2_of (Z.to_nat n) (Z.to_nat m) g),
   mkGenerator (draws g) (consumed g + Z.to_nat n * Z.to_nat m)).
Proof.
  intros Hn Hm. unfold randn.
  destruct (Z.ltb_spec n 0); [lia|]. destruct (Z.ltb_spec m 0); [lia|].
  simpl. unfold bind, standard_normal, ret. f_equal. f_equal.
  unfold dW2_of. apply map_ext_in. intros p Hp. apply in_seq in Hp.
  apply map_ext_in. intros i Hi. apply in_seq in Hi.
  rewrite !nth_draws by nia. reflexivity.
Qed.

(** ** The deterministic transform *)

Lemma gamma_Ok (alpha : R) (n_steps : Z) :
  (2 <= n_steps)%Z -> alpha <> 0 ->
  gamma alpha n_steps = Ok (gamma_list alpha n_steps).
Proof.
  intros Hn Ha. unfold gamma. rewrite arange_up by lia. simpl.
  unfold discrete_TBSS_fn, float_truediv.
  destruct (Req_EM_T alpha 0); [contradiction|]. simpl.
  unfold gamma_list. rewrite !map_map. reflexivity.
Qed.

Lemma length_gamma_list (alpha : R) (n_steps : Z) :
  (2 <= n_steps)%Z -> length (gamma_list alpha n_steps) = Z.to_nat n_steps.
Proof.
  intros H. unfold gamma_list. simpl. rewrite !length_map, length_seq. lia.
Qed.

Lemma variance_Ok (V0 eta alpha dt : R) (n_steps : Z) (y : tensor2) :
  (0 <= n_steps)%Z ->
  variance V0 eta alpha dt n_steps y =
  Ok (variance_rows V0 eta alpha dt n_steps y).
Proof.
  intros H. unfold variance. rewrite arange_up by lia. simpl.
  unfold variance_rows. f_equal. apply map_ext. intros row. f_equal.
  rewrite Z.sub_0_r, map_map. apply map_ext. intros i.
  unfold drift. rewrite INR_IZR_INZ. reflexivity.
Qed.

Lemma generate_from_increments_Ok (n_paths n_steps : Z) (init_state : R * R)
    (alpha rho eta dt : R) (dW1 : tensor3) (dW2 : tensor2) :
  (2 <= n_steps)%Z -> alpha <> 0 -> dW1 <> [] ->
  Forall (fun r => length r = Z.to_nat (n_steps - 1)) dW1 ->
  generate_from_increments n_paths n_steps init_state alpha alpha rho eta dt
    dW1 dW2
  = Ok (paths n_paths n_steps init_state alpha rho eta dt dW1 dW2).
Proof.
  intros Hn Ha Hne Hshape. unfold generate_from_increments.
  rewrite gamma_Ok by assumption. simpl.
  assert (Hs : Forall (fun r => length r = Z.to_nat (n_steps - 1))
                 (select0 dW1)).
  { unfold select0. rewrite Forall_fmap. eapply Forall_impl; [exact Hshape|].
    intros r Hr. simpl. rewrite length_map. exact Hr. }
  rewrite GXi_convolve_Ok; try assumption.
  2:{ apply length_gamma_list. exact Hn. }
  2:{ unfold select0. destruct dW1; [congruence|discriminate]. }
  simpl. rewrite Y2_causal; try assumption.
  2:{ apply length_gamma_list. exact Hn. }
  2:{ reflexivity. }
  simpl. rewrite variance_Ok by lia. reflexivity.
Qed.

(** ** The whole call on parameters it accepts *)

Lemma dW1_of_shape d N K g :
  length (dW1_of d N K g) = N /\
  Forall (fun r => length r = K) (dW1_of d N K g).
Proof.
  unfold dW1_of. split.
  - rewrite length_map, length_seq. reflexivity.
  - rewrite Forall_fmap. apply Forall_forall. intros p _. simpl.
    rewrite length_map, length_seq. reflexivity.
Qed.

Lemma new_dW1_generator_Ok (dt alpha : R) :
  0 < dt -> -1 / 2 < alpha -> alpha <> 0 ->
  new_dW1_generator dt alpha = Ok (dW1_generator dt alpha).
Proof.
  intros Hdt Ha Ha0. unfold new_dW1_generator.
  rewrite !py_pow_pos by exact Hdt. simpl.
  rewrite !py_truediv_float by lra. simpl.
  apply new_MultivariateNormal_Ok; assumption.
Qed.

Lemma generate_rough_bergomi_Ok (n_paths n_steps : Z)
    (init_state : option (R * R)) (alpha rho eta xi dt : R) (g : Generator) :
  (1 <= n_paths)%Z -> (2 <= n_steps)%Z -> 0 < dt ->
  -1 / 2 < alpha -> alpha <> 0 ->
  generate_rough_bergomi n_paths n_steps init_state alpha rho eta xi dt g =
  (Ok (paths n_paths n_steps (init_or_default init_state xi) alpha rho eta dt
         (dW1_at n_paths n_steps alpha dt g) (dW2_at n_paths n_steps g)),
   after_draws n_paths n_steps g).
Proof.
  intros Hp Hs Hdt Ha Ha0. unfold generate_rough_bergomi, cast_state.
  unfold bind at 1. unfold py at 1.
  rewrite new_dW1_generator_Ok by assumption.
  unfold bind at 1. rewrite sample_Ok by lia.
  unfold bind at 1. rewrite randn_Ok by lia.
  unfold py.
  rewrite generate_from_increments_Ok; try assumption.
  - reflexivity.
  - intros E. pose proof (proj1 (dW1_of_shape (dW1_generator dt alpha)
      (Z.to_nat n_paths) (Z.to_nat (n_steps - 1)) g)) as HL.
    rewrite E in HL. simpl in HL. lia.
  - apply dW1_of_shape.
Qed.

(** ** Entries and shapes *)

Lemma entry_Some {A} (t : list (list A)) p i row :
  t !! p = Some row -> entry t p i = row !! i.
Proof. intros H. unfold entry. rewrite H. reflexivity. Qed.

Lemma entry_map {A B} (f : A -> B) (t : list (list A)) p i :
  entry (map (map f) t) p i = f <$> entry t p i.
Proof.
  unfold entry. rewrite list_lookup_fmap.
  destruct (t !! p) as [row|]; simpl; [|reflexivity].
  apply list_lookup_fmap.
Qed.

Lemma entry_tmap f t p i : entry (tmap f t) p i = f <$> entry t p i.
Proof. apply entry_map. Qed.

Lemma entry_tzip f a b p i x y :
  entry a p i = Some x -> entry b p i = Some y ->
  entry (tzip f a b) p i = Some (f x y).
Proof.
  unfold entry, tzip. intros Ha Hb. rewrite lookup_zip_with.
  destruct (a !! p) as [ra|]; [|discriminate].
  destruct (b !! p) as [rb|]; [|discriminate]. simpl.
  rewrite lookup_zip_with, Ha, Hb. reflexivity.
Qed.

Lemma has_shape_entry {A} n m (t : list (list A)) p i :
  has_shape n m t -> (p < n)%nat -> (i < m)%nat ->
  exists x, entry t p i = Some x.
Proof.
  intros [Hn Hm] Hp Hi.
  destruct (lookup_lt_is_Some_2 t p) as [row Hrow]; [lia|].
  rewrite Forall_lookup in Hm. specialize (Hm p row Hrow).
  destruct (lookup_lt_is_Some_2 row i) as [x Hx]; [lia|].
  exists x. rewrite (entry_Some _ _ _ _ Hrow). exact Hx.
Qed.

Lemma has_shape_map {A B} (f : A -> B) n m (t : list (list A)) :
  has_shape n m t -> has_shape n m (map (map f) t).
Proof.
  intros [Hn Hm]. split; [rewrite length_map; exact Hn|].
  rewrite Forall_fmap. eapply Forall_impl; [exact Hm|].
  intros row Hrow. simpl. rewrite length_map. exact Hrow.
Qed.

Lemma has_shape_zip {A B C} (f : A -> B -> C) n m
    (a : list (list A)) (b : list (list B)) :
  has_shape n m a -> has_shape n m b ->
  has_shape n m (zip_with (zip_with f) a b).
Proof.
  intros [Hna Hma] [Hnb Hmb]. split; [rewrite length_zip_with; lia|].
  apply Forall_lookup. intros p row Hrow.
  apply lookup_zip_with_Some in Hrow as (ra & rb & -> & Hra & Hrb).
  rewrite Forall_lookup in Hma. rewrite Forall_lookup in Hmb.
  rewrite length_zip_with, (Hma p ra Hra), (Hmb p rb Hrb). lia.
Qed.

Lemma has_shape_cat_last n m1 m2 (a b : tensor2) :
  has_shape n m1 a -> has_shape n m2 b ->
  has_shape n (m1 + m2) (cat_last a b).
Proof.
  intros [Hna Hma] [Hnb Hmb]. split.
  - unfold cat_last. rewrite length_zip_with. lia.
  - apply Forall_lookup. intros p row Hrow.
    apply lookup_zip_with_Some in Hrow as (ra & rb & -> & Hra & Hrb).
    rewrite Forall_lookup in Hma. rewrite Forall_lookup in Hmb.
    rewrite length_app, (Hma p ra Hra), (Hmb p rb Hrb). reflexivity.
Qed.

Lemma has_shape_zeros2 n m : has_shape n m (zeros2 n m).
Proof.
  split; [apply length_replicate|].
  apply Forall_replicate. apply length_replicate.
Qed.

Lemma has_shape_dW1_of d N K g : has_shape N K (dW1_of d N K g).
Proof. apply dW1_of_shape. Qed.

Lemma has_shape_dW2_of N K g : has_shape N K (dW2_of N K g).
Proof.
  unfold dW2_of. split.
  - rewrite length_map, length_seq. reflexivity.
  - rewrite Forall_fmap. apply Forall_forall. intros p _. simpl.
    rewrite length_map, length_seq. reflexivity.
Qed.

Lemma has_shape_Y1 n_paths K (dW1 : tensor3) :
  has_shape (Z.to_nat n_paths) K dW1 ->
  has_shape (Z.to_nat n_paths) (1 + K) (Y1 n_paths dW1).
Proof.
  intros H. unfold Y1. apply has_shape_cat_last.
  - apply has_shape_zeros2.
  - apply has_shape_map. exact H.
Qed.

Lemma has_shape_Y2_direct g n_steps N (Xi : tensor2) :
  length Xi = N -> has_shape N (Z.to_nat n_steps) (Y2_direct g n_steps Xi).
Proof.
  intros H. unfold Y2_direct. split; [rewrite length_map; exact H|].
  rewrite Forall_fmap. apply Forall_forall. intros xi _. simpl.
  rewrite length_map, length_seq. reflexivity.
Qed.

Lemma has_shape_volterra n_paths n_steps alpha (dW1 : tensor3) :
  (1 <= n_steps)%Z ->
  has_shape (Z.to_nat n_paths) (Z.to_nat (n_steps - 1)) dW1 ->
  has_shape (Z.to_nat n_paths) (Z.to_nat n_steps)
    (volterra n_paths n_steps alpha dW1).
Proof.
  intros Hs H. unfold volterra, Y, tmap. apply has_shape_map.
  apply has_shape_zip.
  - replace (Z.to_nat n_steps) with (1 + Z.to_nat (n_steps - 1))%nat by lia.
    apply has_shape_Y1. exact H.
  - apply has_shape_Y2_direct. unfold select0. rewrite length_map. apply H.
Qed.

Lemma has_shape_variance_rows V0 eta alpha dt n_steps N (y : tensor2) :
  has_shape N (Z.to_nat n_steps) y ->
  has_shape N (Z.to_nat n_steps) (variance_rows V0 eta alpha dt n_steps y).
Proof.
  intros [Hn Hm]. unfold variance_rows. split; [rewrite length_map; exact Hn|].
  rewrite Forall_fmap. eapply Forall_impl; [exact Hm|].
  intros row Hrow. simpl.
  rewrite length_zip_with, length_map, length_seq, Hrow. lia.
Qed.

Lemma has_shape_drop_last_col N m (t : tensor2) :
  has_shape N m t -> has_shape N (m - 1) (drop_last_col t).
Proof.
  intros [Hn Hm]. unfold drop_last_col. split; [rewrite length_map; exact Hn|].
  rewrite Forall_fmap. eapply Forall_impl; [exact Hm|].
  intros row Hrow. simpl in *. rewrite length_take. lia.
Qed.

Lemma length_cumsum_from acc l : length (cumsum_from acc l) = length l.
Proof.
  revert acc. induction l as [|x l IH]; intros acc; simpl; [reflexivity|].
  rewrite IH. reflexivity.
Qed.

Lemma has_shape_cumsum N m (t : tensor2) :
  has_shape N m t -> has_shape N m (cumsum t).
Proof.
  intros [Hn Hm]. unfold cumsum. split; [rewrite length_map; exact Hn|].
  rewrite Forall_fmap. eapply Forall_impl; [exact Hm|].
  intros row Hrow. simpl. rewrite length_cumsum_from. exact Hrow.
Qed.

Lemma has_shape_dB rho N K (dW1 : tensor3) (dW2 : tensor2) :
  has_shape N K dW1 -> has_shape N K dW2 -> has_shape N K (dB rho dW1 dW2).
Proof.
  intros H1 H2. unfold dB, tzip, tmap, select0.
  apply has_shape_zip; apply has_shape_map; [|exact H2].
  apply has_shape_map. exact H1.
Qed.

(** The shape of the returned tensors. *)
Lemma has_shape_paths n_paths n_steps init_state alpha rho eta dt
    (dW1 : tensor3) (dW2 : tensor2) :
  (1 <= n_steps)%Z ->
  has_shape (Z.to_nat n_paths) (Z.to_nat (n_steps - 1)) dW1 ->
  has_shape (Z.to_nat n_paths) (Z.to_nat (n_steps - 1)) dW2 ->
  let out := paths n_paths n_steps init_state alpha rho eta dt dW1 dW2 in
  has_shape (Z.to_nat n_paths) (Z.to_nat n_steps) (SpotVarianceTuple.spot out)
  /\ has_shape (Z.to_nat n_paths) (Z.to_nat n_steps)
       (SpotVarianceTuple.variance out).
Proof.
  intros Hs H1 H2. simpl.
  assert (Hv : has_shape (Z.to_nat n_paths) (Z.to_nat n_steps)
            (variance_rows (snd init_state) eta alpha dt n_steps
               (volterra n_paths n_steps alpha dW1))).
  { apply has_shape_variance_rows, has_shape_volterra; assumption. }
  split; [|exact Hv].
  unfold prices, tmap. apply has_shape_map. unfold log_return.
  replace (Z.to_nat n_steps) with (1 + Z.to_nat (n_steps - 1))%nat by lia.
  apply has_shape_cat_last; [apply has_shape_zeros2|].
  apply has_shape_cumsum. unfold increments, tzip. apply has_shape_zip.
  - replace (Z.to_nat (n_steps - 1)) with (Z.to_nat n_steps - 1)%nat by lia.
    apply has_shape_drop_last_col. exact Hv.
  - apply has_shape_dB; [exact H1|]. apply has_shape_map. exact H2.
Qed.

(** ** Entries of the Volterra tensor *)

Lemma entry_cat_last (a b : tensor2) p i ra rb :
  a !! p = Some ra -> b !! p = Some rb ->
  entry (cat_last a b) p i = (ra ++ rb) !! i.
Proof.
  intros Ha Hb. unfold entry, cat_last.
  rewrite lookup_zip_with, Ha, Hb. reflexivity.
Qed.

Lemma entry_Y1 n_paths (dW1 : tensor3) p i row :
  (p < Z.to_nat n_paths)%nat -> dW1 !! p = Some row ->
  (i <= length row)%nat ->
  entry (Y1 n_paths dW1) p i = Some (nth i (0 :: map snd row) 0).
Proof.
  intros Hp Hrow Hi. unfold Y1.
  rewrite (entry_cat_last _ _ _ _ (replicate 1 0) (map snd row)).
  - destruct (lookup_lt_is_Some_2 (0 :: map snd row) i) as [x Hx].
    { simpl. rewrite length_map. lia. }
    change ((0 :: map snd row) !! i = Some (nth i (0 :: map snd row) 0)).
    rewrite Hx. f_equal. symmetry. apply nth_lookup_Some. exact Hx.
  - unfold zeros2. apply lookup_replicate_2. exact Hp.
  - unfold select1. rewrite list_lookup_fmap, Hrow. reflexivity.
Qed.

Lemma entry_Y2_direct g n_steps (Xi : tensor2) p i xi :
  Xi !! p = Some xi -> (i < Z.to_nat n_steps)%nat ->
  entry (Y2_direct g n_steps Xi) p i = Some (causal_sum g xi i).
Proof.
  intros Hxi Hi. unfold Y2_direct, entry.
  rewrite list_lookup_fmap, Hxi. simpl.
  rewrite list_lookup_fmap, lookup_seq_lt by exact Hi. reflexivity.
Qed.

Lemma entry_volterra n_paths n_steps alpha (dW1 : tensor3) p i row :
  (p < Z.to_nat n_paths)%nat -> dW1 !! p = Some row ->
  length row = Z.to_nat (n_steps - 1) -> (i < Z.to_nat n_steps)%nat ->
  entry (volterra n_paths n_steps alpha dW1) p i =
  Some (torch_sqrt (2 * alpha + 1)
        * (nth i (0 :: map snd row) 0
           + causal_sum (gamma_list alpha n_steps) (map fst row) i)).
Proof.
  intros Hp Hrow Hlen Hi. unfold volterra, Y.
  rewrite entry_tmap.
  erewrite entry_tzip; [reflexivity| |].
  - apply entry_Y1; [exact Hp|exact Hrow|lia].
  - apply entry_Y2_direct; [|exact Hi].
    unfold select0. rewrite list_lookup_fmap, Hrow. reflexivity.
Qed.

Lemma causal_sum_0 g xi : causal_sum g xi 0 = 0.
Proof. reflexivity. Qed.

Lemma entry_volterra_0 n_paths n_steps alpha (dW1 : tensor3) p row :
  (p < Z.to_nat n_paths)%nat -> dW1 !! p = Some row ->
  length row = Z.to_nat (n_steps - 1) -> (1 <= n_steps)%Z ->
  entry (volterra n_paths n_steps alpha dW1) p 0 = Some 0.
Proof.
  intros Hp Hrow Hlen Hs.
  rewrite (entry_volterra _ _ _ _ _ _ row) by (try assumption; lia).
  simpl. rewrite causal_sum_0. f_equal. lra.
Qed.

(** ** Entries of the variance *)

Lemma torch_pow_0 y : y <> 0 -> torch_pow 0 y = 0.
Proof.
  intros H. unfold torch_pow. destruct (Req_EM_T 0 0) as [_|N]; [|lra].
  destruct (Req_EM_T y 0); [contradiction|reflexivity].
Qed.

Lemma torch_pow_pos x y : x <> 0 -> torch_pow x y = Rpower x y.
Proof.
  intros H. unfold torch_pow. destruct (Req_EM_T x 0); [contradiction|].
  reflexivity.
Qed.

Lemma drift_0 eta alpha dt : 2 * alpha + 1 <> 0 -> drift eta alpha dt 0 = 0.
Proof.
  intros H. unfold drift. simpl. rewrite Rmult_0_l, torch_pow_0 by exact H.
  lra.
Qed.

Lemma entry_variance_rows V0 eta alpha dt n_steps (y : tensor2) p i s :
  entry y p i = Some s -> (i < Z.to_nat n_steps)%nat ->
  entry (variance_rows V0 eta alpha dt n_steps y) p i =
  Some (V0 * exp (eta * s - drift eta alpha dt i)).
Proof.
  unfold entry, variance_rows. intros Hs Hi. rewrite list_lookup_fmap.
  destruct (y !! p) as [row|]; [|discriminate]. simpl.
  rewrite lookup_zip_with, Hs. simpl.
  rewrite list_lookup_fmap, lookup_seq_lt by exact Hi. reflexivity.
Qed.

(** ** The first column of the spot *)

Lemma entry_log_return_0 n_paths (incs : tensor2) p :
  (p < Z.to_nat n_paths)%nat -> (p < length incs)%nat ->
  entry (log_return n_paths incs) p 0 = Some 0.
Proof.
  intros Hp Hl. unfold log_return.
  destruct (lookup_lt_is_Some_2 incs p Hl) as [row Hrow].
  rewrite (entry_cat_last _ _ _ _ (replicate 1 0) (cumsum_from 0 row)).
  - reflexivity.
  - unfold zeros2. apply lookup_replicate_2. exact Hp.
  - unfold cumsum. rewrite list_lookup_fmap, Hrow. reflexivity.
Qed.

Lemma entry_prices S0 (lr : tensor2) p i l :
  entry lr p i = Some l -> entry (prices S0 lr) p i = Some (S0 * exp l).
Proof. intros H. unfold prices. rewrite entry_tmap, H. reflexivity. Qed.

Lemma paths_first_column n_paths n_steps init_state alpha rho eta dt
    (dW1 : tensor3) (dW2 : tensor2) p :
  (1 <= n_steps)%Z -> 2 * alpha + 1 <> 0 ->
  has_shape (Z.to_nat n_paths) (Z.to_nat (n_steps - 1)) dW1 ->
  has_shape (Z.to_nat n_paths) (Z.to_nat (n_steps - 1)) dW2 ->
  (p < Z.to_nat n_paths)%nat ->
  let out := paths n_paths n_steps init_state alpha rho eta dt dW1 dW2 in
  entry (SpotVarianceTuple.spot out) p 0 = Some (fst init_state) /\
  entry (SpotVarianceTuple.variance out) p 0 = Some (snd init_state).
Proof.
  intros Hs Ha H1 H2 Hp. simpl.
  assert (Hv : has_shape (Z.to_nat n_paths) (Z.to_nat n_steps)
            (variance_rows (snd init_state) eta alpha dt n_steps
               (volterra n_paths n_steps alpha dW1))).
  { apply has_shape_variance_rows, has_shape_volterra; assumption. }
  split.
  - erewrite entry_prices.
    2:{ apply entry_log_return_0; [exact Hp|].
        unfold increments, tzip. rewrite length_zip_with.
        unfold drop_last_col. rewrite length_map.
        destruct Hv as [-> _].
        pose proof (has_shape_dB rho _ _ dW1
          (tmap (fun x => x * torch_sqrt dt) dW2) H1
          (has_shape_map _ _ _ _ H2)) as [-> _]. lia. }
    rewrite exp_0, Rmult_1_r. reflexivity.
  - destruct H1 as [Hn Hm].
    destruct (lookup_lt_is_Some_2 dW1 p) as [row Hrow]; [lia|].
    rewrite Forall_lookup in Hm. specialize (Hm p row Hrow). simpl in Hm.
    erewrite entry_variance_rows; [| |lia].
    2:{ apply (entry_volterra_0 _ _ _ _ _ row); assumption. }
    rewrite drift_0 by exact Ha.
    replace (eta * 0 - 0) with 0 by lra.
    rewrite exp_0, Rmult_1_r. reflexivity.
Qed.

(** ** A single time step *)

Lemma generate_from_increments_one_step n_paths init_state alpha a r e dt
    (dW1 : tensor3) (dW2 : tensor2) :
  generate_from_increments n_paths 1 init_state alpha a r e dt dW1 dW2
  = Raise RuntimeError.
Proof. reflexivity. Qed.

Lemma generate_one_step_raises (n_paths : Z) (init_state : option (R * R))
    (alpha rho eta xi dt : R) (g : Generator) :
  (0 <= n_paths)%Z -> 0 < dt -> -1 / 2 < alpha -> alpha <> 0 ->
  generate_rough_bergomi n_paths 1 init_state alpha rho eta xi dt g =
  (Raise RuntimeError, after_draws n_paths 1 g).
Proof.
  intros Hp Hdt Ha Ha0. unfold generate_rough_bergomi, cast_state.
  unfold bind at 1. unfold py at 1.
  rewrite new_dW1_generator_Ok by assumption.
  unfold bind at 1. rewrite sample_Ok by lia.
  unfold bind at 1. rewrite randn_Ok by lia.
  unfold py. rewrite generate_from_increments_one_step. reflexivity.
Qed.

Lemma valid_parameters_head n_paths n_steps alpha rho eta xi dt :
  valid_parameters n_paths n_steps alpha rho eta xi dt ->
  (1 <= n_paths)%Z /\ (1 <= n_steps)%Z /\ 0 < dt /\ -1 / 2 < alpha /\
  alpha <> 0 /\ 2 * alpha + 1 <> 0.
Proof. unfold valid_parameters. intros H. repeat split; lra || lia. Qed.

(** The shapes of the sampled tensors of a call. *)
Lemma has_shape_dW1_at n_paths n_steps alpha dt g :
  has_shape (Z.to_nat n_paths) (Z.to_nat (n_steps - 1))
    (dW1_at n_paths n_steps alpha dt g).
Proof. apply has_shape_dW1_of. Qed.

Lemma has_shape_dW2_at n_paths n_steps g :
  has_shape (Z.to_nat n_paths) (Z.to_nat (n_steps - 1))
    (dW2_at n_paths n_steps g).
Proof. apply has_shape_dW2_of. Qed.

(** * The claims *)

(** C1.  The first column cannot be read off at a single time step: for the
    valid parameter set [n_paths = 3], [n_steps = 1] with the default
    parameters the call raises on every generator, so no pair with
    [spot[p, 0] = S0] and [variance[p, 0] = V0] is returned. *)
Theorem C1_one_step_no_pair :
  valid_parameters 3 1 (-2/5) (-9/10) (19/10) (1/25) (1/250) /\
  forall g : Generator,
    fst (generate_rough_bergomi 3 1 None (-2/5) (-9/10) (19/10) (1/25)
           (1/250) g) = Raise RuntimeError /\
    ~ exists out g',
        generate_rough_bergomi 3 1 None (-2/5) (-9/10) (19/10) (1/25)
          (1/250) g = (Ok out, g').
Proof.
  split; [unfold valid_parameters; repeat split; lra || lia|].
  intros g. rewrite generate_one_step_raises by (lra || lia).
  split; [reflexivity|]. intros (out & g' & H). discriminate.
Qed.

(** C7.  A single time step: on the default parameters with [n_steps = 1] the
    call raises instead of returning single-column tensors; no random value has
    been consumed at that point. *)
Theorem C7_one_step_raises (g : Generator) :
  fst (generate_rough_bergomi 1 1 None (-2/5) (-9/10) (19/10) (1/25) (1/250) g)
  = Raise RuntimeError /\
  consumed
    (snd (generate_rough_bergomi 1 1 None (-2/5) (-9/10) (19/10) (1/25)
            (1/250) g))
  = consumed g.
Proof.
  rewrite generate_one_step_raises by (lra || lia).
  split; [reflexivity|]. simpl. lia.
Qed.

(** C5, as amended.  For valid parameters with at least two time steps the
    call returns, and on every path [p] and at every time index [i] the
    variance is [V0 * exp (eta * Y[p, i] - 0.5 * eta^2 * (i * dt)^(2 alpha + 1))]
    with [V0] the second entry of [init_state] (which is [xi] by default only);
    the power is a real power for [i >= 1], and the entry at [i = 0] is [V0]. *)
Theorem C5_variance_formula (n_paths n_steps : Z)
    (init_state : option (R * R)) (alpha rho eta xi dt : R) (g : Generator) :
  valid_parameters n_paths n_steps alpha rho eta xi dt ->
  (2 <= n_steps)%Z ->
  exists out g',
    generate_rough_bergomi n_paths n_steps init_state alpha rho eta xi dt g
    = (Ok out, g') /\
    forall p i, (p < Z.to_nat n_paths)%nat -> (i < Z.to_nat n_steps)%nat ->
      exists s,
        entry (volterra n_paths n_steps alpha
                 (dW1_at n_paths n_steps alpha dt g)) p i = Some s /\
        entry (SpotVarianceTuple.variance out) p i
        = Some (snd (init_or_default init_state xi)
                * exp (eta * s
                       - 0.5 * (eta * eta)
                         * torch_pow (INR i * dt) (2 * alpha + 1))) /\
        ((1 <= i)%nat ->
         torch_pow (INR i * dt) (2 * alpha + 1)
         = Rpower (INR i * dt) (2 * alpha + 1)) /\
        entry (SpotVarianceTuple.variance out) p 0
        = Some (snd (init_or_default init_state xi)).
Proof.
  intros Hv H2.
  destruct (valid_parameters_head _ _ _ _ _ _ _ Hv)
    as (Hp & Hs & Hdt & Ha & Ha0 & Ha2).
  eexists _, _. split; [apply generate_rough_bergomi_Ok; assumption|].
  intros p i Hlp Hli.
  pose proof (has_shape_volterra n_paths n_steps alpha _ Hs
                (has_shape_dW1_at n_paths n_steps alpha dt g)) as Hsh.
  destruct (has_shape_entry _ _ _ p i Hsh Hlp Hli) as [s Hse].
  exists s. split; [exact Hse|]. split; [|split].
  - simpl. rewrite (entry_variance_rows _ _ _ _ _ _ _ _ s Hse Hli).
    reflexivity.
  - intros Hi. apply torch_pow_pos.
    assert (0 < INR i) by (apply lt_0_INR; lia). nra.
  - apply paths_first_column; try assumption.
    + apply has_shape_dW1_at.
    + apply has_shape_dW2_at.
Qed.

Lemma C5_variance_formula_witness :
  exists out g',
    generate_rough_bergomi 2 5 (Some (1, 9/100)) (-2/5) (-9/10) (19/10)
      (1/25) (1/250) example_generator
    = (Ok out, g') /\
    forall p i, (p < Z.to_nat 2)%nat -> (i < Z.to_nat 5)%nat ->
      exists s,
        entry (volterra 2 5 (-2/5)
                 (dW1_at 2 5 (-2/5) (1/250) example_generator)) p i = Some s /\
        entry (SpotVarianceTuple.variance out) p i
        = Some (snd (init_or_default (Some (1, 9/100)) (1/25))
                * exp (19/10 * s
                       - 0.5 * (19/10 * (19/10))
                         * torch_pow (INR i * (1/250)) (2 * (-2/5) + 1))) /\
        ((1 <= i)%nat ->
         torch_pow (INR i * (1/250)) (2 * (-2/5) + 1)
         = Rpower (INR i * (1/250)) (2 * (-2/5) + 1)) /\
        entry (SpotVarianceTuple.variance out) p 0
        = Some (snd (init_or_default (Some (1, 9/100)) (1/25))).
Proof.
  apply (C5_variance_formula 2 5 (Some (1, 9/100)) (-2/5) (-9/10) (19/10)
           (1/25) (1/250) example_generator).
  - unfold valid_parameters. repeat split; lra || lia.
  - lia.
Defined.

(** C5 as stated fails for an [init_state] whose variance differs from [xi]:
    the entry at [i = 0] is the initial variance [9/100], not [xi = 1/25]. *)
Lemma C5_counterexample :
  valid_parameters 1 2 (-2/5) (-9/10) (19/10) (1/25) (1/250) /\
  exists out g',
    generate_rough_bergomi 1 2 (Some (1, 9/100)) (-2/5) (-9/10) (19/10)
      (1/25) (1/250) example_generator
    = (Ok out, g') /\
    entry (SpotVarianceTuple.variance out) 0 0 = Some (9/100) /\
    entry (SpotVarianceTuple.variance out) 0 0 <> Some (1/25).
Proof.
  split; [unfold valid_parameters; repeat split; lra || lia|].
  eexists _, _. split.
  { apply generate_rough_bergomi_Ok; lra || lia. }
  destruct (paths_first_column 1 2 (1, 9/100) (-2/5) (-9/10) (19/10) (1/250)
              (dW1_at 1 2 (-2/5) (1/250) example_generator)
              (dW2_at 1 2 example_generator) 0%nat) as [_ H0];
    [lia|lra|apply has_shape_dW1_at|apply has_shape_dW2_at|simpl; lia|].
  split; [exact H0|].
  intros H1.
  assert (E : Some (9/100) = Some (1/25))
    by (etransitivity; [symmetry; exact H0|exact H1]).
  injection E as E. lra.
Qed.

(** ** The kernel weights *)

Lemma gamma_entry_kernel_weight (alpha : R) (n_steps : Z) (k : nat) :
  0 < alpha + 1 -> alpha <> 0 -> (3 <= n_steps)%Z -> (2 <= k)%nat ->
  gamma_entry alpha n_steps (Z.of_nat k) = kernel_weight alpha n_steps k.
Proof.
  intros Ha Ha0 Hn Hk. unfold gamma_entry, kernel_weight, TBSS.
  rewrite <- INR_IZR_INZ.
  assert (Hx : 2 <= INR k) by (apply (le_INR 2); exact Hk).
  rewrite (torch_pow_pos (INR k)) by lra.
  rewrite (torch_pow_pos (INR k - 1)) by lra.
  set (D := (Rpower (INR k) (alpha + 1) - Rpower (INR k - 1) (alpha + 1))
            / (alpha + 1)).
  assert (HD : 0 < D).
  { unfold D. apply Rdiv_lt_0_compat; [|exact Ha].
    assert (Rpower (INR k - 1) (alpha + 1) < Rpower (INR k) (alpha + 1))
      by (apply Rlt_Rpower_l; lra).
    lra. }
  rewrite (torch_pow_pos D) by lra.
  apply torch_pow_pos.
  assert (0 < Rpower D (1 / alpha)) by apply exp_pos.
  assert (0 < IZR (n_steps - 1)) by (apply IZR_lt; lia).
  assert (0 < Rpower D (1 / alpha) / IZR (n_steps - 1))
    by (apply Rdiv_lt_0_compat; assumption).
  lra.
Qed.

Lemma gamma_list_lookup (alpha : R) (n_steps : Z) (k : nat) :
  (2 <= k < Z.to_nat n_steps)%nat ->
  gamma_list alpha n_steps !! k
  = Some (gamma_entry alpha n_steps (Z.of_nat k)).
Proof.
  intros Hk. unfold gamma_list.
  rewrite lookup_app_r by (simpl; lia). simpl length.
  rewrite !list_lookup_fmap, lookup_seq_lt by lia. simpl.
  do 2 f_equal. lia.
Qed.

Lemma gamma_short (alpha : R) (n_steps : Z) :
  (n_steps < 2)%Z -> gamma alpha n_steps = Raise RuntimeError.
Proof.
  intros H. unfold gamma, arange. simpl.
  destruct (Z.leb_spec 2 n_steps); [lia|reflexivity].
Qed.

(** C4, as amended.  The kernel weights are a function of [alpha] and
    [n_steps] alone.  For [n_steps >= 2] they form a sequence of length
    [n_steps] whose first two entries are zero and whose entry at index [k],
    for [k = 2 .. n_steps - 1], is
    [(((k^(alpha+1) - (k-1)^(alpha+1)) / (alpha+1))^(1/alpha)
      / (n_steps - 1))^alpha]; for [n_steps = 2] they are all zero. *)
Theorem C4_kernel_weights (alpha : R) (n_steps : Z) :
  -1 / 2 < alpha < 0 -> (2 <= n_steps)%Z ->
  exists _gamma,
    gamma alpha n_steps = Ok _gamma /\
    length _gamma = Z.to_nat n_steps /\
    _gamma !! 0%nat = Some 0 /\ _gamma !! 1%nat = Some 0 /\
    (forall k, (2 <= k < Z.to_nat n_steps)%nat ->
       _gamma !! k = Some (kernel_weight alpha n_steps k)) /\
    ((n_steps < 3)%Z -> _gamma = [0; 0]).
Proof.
  intros Ha Hn. exists (gamma_list alpha n_steps).
  split; [apply gamma_Ok; [exact Hn|lra]|].
  split; [apply length_gamma_list; exact Hn|].
  split; [reflexivity|]. split; [reflexivity|]. split.
  - intros k Hk. rewrite gamma_list_lookup by exact Hk. f_equal.
    apply gamma_entry_kernel_weight; lra || lia.
  - intros H3. unfold gamma_list.
    replace (Z.to_nat (n_steps - 2)) with 0%nat by lia. reflexivity.
Qed.

Lemma C4_kernel_weights_witness :
  exists _gamma,
    gamma (-2/5) 4 = Ok _gamma /\
    length _gamma = Z.to_nat 4 /\
    _gamma !! 0%nat = Some 0 /\ _gamma !! 1%nat = Some 0 /\
    (forall k, (2 <= k < Z.to_nat 4)%nat ->
       _gamma !! k = Some (kernel_weight (-2/5) 4 k)) /\
    ((4 < 3)%Z -> _gamma = [0; 0]).
Proof. apply (C4_kernel_weights (-2/5) 4); lra || lia. Defined.

(** C4 as stated fails: for three time steps the sequence has three entries,
    not [n_steps - 1 = 2]. *)
Lemma C4_counterexample :
  exists _gamma,
    gamma (-2/5) 3 = Ok _gamma /\ length _gamma = 3%nat /\
    length _gamma <> Z.to_nat (3 - 1).
Proof.
  exists (gamma_list (-2/5) 3).
  split; [apply gamma_Ok; [lia|lra]|].
  split; [reflexivity|]. simpl. lia.
Qed.

(** ** The Volterra pipeline on arbitrary increments *)

Lemma gamma_inv (alpha : R) (n_steps : Z) (g : list R) :
  gamma alpha n_steps = Ok g ->
  (2 <= n_steps)%Z /\ alpha <> 0 /\ g = gamma_list alpha n_steps.
Proof.
  intros H. destruct (Z_lt_le_dec n_steps 2) as [Hlt|Hle].
  { rewrite gamma_short in H by exact Hlt. discriminate. }
  destruct (Req_EM_T alpha 0) as [->|Hne].
  { unfold gamma in H. rewrite arange_up in H by exact Hle. simpl in H.
    unfold discrete_TBSS_fn, float_truediv in H.
    destruct (Req_EM_T 0 0) as [_|N]; [discriminate|lra]. }
  rewrite gamma_Ok in H by assumption. injection H as <-.
  repeat split; assumption.
Qed.

Lemma nth_take_eq {A} (l l' : list A) (i j : nat) (d : A) :
  take i l = take i l' -> (j < i)%nat -> nth j l d = nth j l' d.
Proof.
  intros E Hj. rewrite !nth_lookup.
  rewrite <- (lookup_take_lt l i j Hj), <- (lookup_take_lt l' i j Hj), E.
  reflexivity.
Qed.

(** The value of [Y[p, i]] reads the increments before [i] only. *)
Lemma volterra_value_causal (g : list R) (row row' : list (R * R)) (i : nat) :
  take i row = take i row' ->
  nth i (0 :: map snd row) 0 + causal_sum g (map fst row) i
  = nth i (0 :: map snd row') 0 + causal_sum g (map fst row') i.
Proof.
  intros E. f_equal.
  - destruct i as [|i]; [reflexivity|]. simpl.
    apply nth_take_eq with (i := S i); [|lia].
    rewrite <- !fmap_take. f_equal. exact E.
  - unfold causal_sum. apply sum_below_ext. intros j Hj. f_equal.
    apply nth_take_eq with (i := i); [|exact Hj].
    rewrite <- !fmap_take. f_equal. exact E.
Qed.

Lemma volterra_pipeline (n_paths n_steps : Z) (alpha : R) (dW1 : tensor3) :
  (2 <= n_steps)%Z -> (1 <= n_paths)%Z ->
  has_shape (Z.to_nat n_paths) (Z.to_nat (n_steps - 1)) dW1 ->
  GXi_convolve (gamma_list alpha n_steps) (select0 dW1) n_steps
  = Ok (map (correlate (padded_input (gamma_list alpha n_steps) n_steps))
          (select0 dW1)) /\
  Y2 (map (correlate (padded_input (gamma_list alpha n_steps) n_steps))
        (select0 dW1)) n_steps
  = Ok (Y2_direct (gamma_list alpha n_steps) n_steps (select0 dW1)).
Proof.
  intros Hs Hp [Hn Hm].
  assert (Hsel : Forall (fun r => length r = Z.to_nat (n_steps - 1))
                   (select0 dW1)).
  { unfold select0. rewrite Forall_fmap. eapply Forall_impl; [exact Hm|].
    intros r Hr. simpl. rewrite length_map. exact Hr. }
  split.
  - apply GXi_convolve_Ok; try assumption.
    + apply length_gamma_list. exact Hs.
    + intros E. apply (f_equal length) in E. unfold select0 in E.
      rewrite length_map in E. simpl in E. lia.
  - apply Y2_causal; try assumption.
    + apply length_gamma_list. exact Hs.
    + reflexivity.
Qed.

(** C3.  With the kernel weights [gamma] of the call and increments of shape
    [(n_paths, n_steps - 1)], the convolution and the index step succeed, and
    on every path the second component is the direct causal sum
    [Y2[i] = sum over j < i of gamma[i - j] * dW1[j]], the Volterra entry is
    [Y[i] = sqrt (2 alpha + 1) * (Y1[i] + Y2[i])], [Y[0] = 0], and [Y[i]]
    is the same for two increment rows that agree before index [i]. *)
Theorem C3_causal_convolution (n_paths n_steps : Z) (alpha : R)
    (_gamma : list R) (dW1 : tensor3) :
  gamma alpha n_steps = Ok _gamma ->
  (1 <= n_paths)%Z ->
  has_shape (Z.to_nat n_paths) (Z.to_nat (n_steps - 1)) dW1 ->
  exists conv y2,
    GXi_convolve _gamma (select0 dW1) n_steps = Ok conv /\
    Y2 conv n_steps = Ok y2 /\
    (forall p row i,
       dW1 !! p = Some row -> (i < Z.to_nat n_steps)%nat ->
       entry y2 p i = Some (causal_sum _gamma (map fst row) i) /\
       entry (Y1 n_paths dW1) p i = Some (nth i (0 :: map snd row) 0) /\
       entry (Y alpha (Y1 n_paths dW1) y2) p i
       = Some (torch_sqrt (2 * alpha + 1)
               * (nth i (0 :: map snd row) 0
                  + causal_sum _gamma (map fst row) i))) /\
    (forall p row,
       dW1 !! p = Some row ->
       entry (Y alpha (Y1 n_paths dW1) y2) p 0 = Some 0) /\
    (forall (dW1' : tensor3) conv' y2' p row row' i,
       has_shape (Z.to_nat n_paths) (Z.to_nat (n_steps - 1)) dW1' ->
       GXi_convolve _gamma (select0 dW1') n_steps = Ok conv' ->
       Y2 conv' n_steps = Ok y2' ->
       dW1 !! p = Some row -> dW1' !! p = Some row' ->
       (i < Z.to_nat n_steps)%nat ->
       take i row = take i row' ->
       entry (Y alpha (Y1 n_paths dW1) y2) p i
       = entry (Y alpha (Y1 n_paths dW1') y2') p i).
Proof.
  intros Hg Hp Hsh. apply gamma_inv in Hg as (Hs & Ha0 & ->).
  destruct (volterra_pipeline n_paths n_steps alpha dW1 Hs Hp Hsh)
    as [Hconv Hy2].
  eexists _, _. split; [exact Hconv|]. split; [exact Hy2|].
  assert (Hentry : forall (t : tensor3) p row i,
    has_shape (Z.to_nat n_paths) (Z.to_nat (n_steps - 1)) t ->
    t !! p = Some row -> (i < Z.to_nat n_steps)%nat ->
    entry (Y alpha (Y1 n_paths t)
             (Y2_direct (gamma_list alpha n_steps) n_steps (select0 t))) p i
    = Some (torch_sqrt (2 * alpha + 1)
            * (nth i (0 :: map snd row) 0
               + causal_sum (gamma_list alpha n_steps) (map fst row) i))).
  { intros t p row i [Hn Hm] Hrow Hi.
    apply (entry_volterra n_paths n_steps alpha t p i row); try assumption.
    - apply lookup_lt_Some in Hrow. lia.
    - rewrite Forall_lookup in Hm. apply (Hm p row Hrow). }
  split; [|split].
  - intros p row i Hrow Hi. split; [|split].
    + apply entry_Y2_direct; [|exact Hi].
      unfold select0. rewrite list_lookup_fmap, Hrow. reflexivity.
    + destruct Hsh as [Hn Hm]. apply entry_Y1; [|exact Hrow|].
      * apply lookup_lt_Some in Hrow. lia.
      * rewrite Forall_lookup in Hm. rewrite (Hm p row Hrow). lia.
    + apply Hentry; assumption.
  - intros p row Hrow. rewrite (Hentry dW1 p row 0%nat) by (try assumption; lia).
    simpl. rewrite causal_sum_0. f_equal. lra.
  - intros dW1' conv' y2' p row row' i Hsh' Hconv' Hy2' Hrow Hrow' Hi Etake.
    destruct (volterra_pipeline n_paths n_steps alpha dW1' Hs Hp Hsh')
      as [Hc' Hy'].
    rewrite Hc' in Hconv'. injection Hconv' as <-.
    rewrite Hy' in Hy2'. injection Hy2' as <-.
    rewrite (Hentry dW1 p row i), (Hentry dW1' p row' i) by assumption.
    do 2 f_equal. apply volterra_value_causal. exact Etake.
Qed.

Lemma C3_causal_convolution_witness :
  exists conv y2,
    GXi_convolve (gamma_list (-2/5) 3) (select0 [[(1, 2); (3, 4)]]) 3
    = Ok conv /\
    Y2 conv 3 = Ok y2 /\
    (forall p row i,
       [[(1, 2); (3, 4)]] !! p = Some row -> (i < Z.to_nat 3)%nat ->
       entry y2 p i = Some (causal_sum (gamma_list (-2/5) 3) (map fst row) i) /\
       entry (Y1 1 [[(1, 2); (3, 4)]]) p i
       = Some (nth i (0 :: map snd row) 0) /\
       entry (Y (-2/5) (Y1 1 [[(1, 2); (3, 4)]]) y2) p i
       = Some (torch_sqrt (2 * (-2/5) + 1)
               * (nth i (0 :: map snd row) 0
                  + causal_sum (gamma_list (-2/5) 3) (map fst row) i))) /\
    (forall p row,
       [[(1, 2); (3, 4)]] !! p = Some row ->
       entry (Y (-2/5) (Y1 1 [[(1, 2); (3, 4)]]) y2) p 0 = Some 0) /\
    (forall (dW1' : tensor3) conv' y2' p row row' i,
       has_shape (Z.to_nat 1) (Z.to_nat (3 - 1)) dW1' ->
       GXi_convolve (gamma_list (-2/5) 3) (select0 dW1') 3 = Ok conv' ->
       Y2 conv' 3 = Ok y2' ->
       [[(1, 2); (3, 4)]] !! p = Some row -> dW1' !! p = Some row' ->
       (i < Z.to_nat 3)%nat ->
       take i row = take i row' ->
       entry (Y (-2/5) (Y1 1 [[(1, 2); (3, 4)]]) y2) p i
       = entry (Y (-2/5) (Y1 1 dW1') y2') p i).
Proof.
  apply (C3_causal_convolution 1 3 (-2/5) (gamma_list (-2/5) 3)
           [[(1, 2); (3, 4)]]).
  - apply gamma_Ok; [lia|lra].
  - lia.
  - split; [reflexivity|]. repeat constructor.
Defined.

(** C8.  For [rho = -1] the price driver is the negated first Gaussian
    coordinate, [dB[p, i] = - dW1[p, i, 0]], on every path and at every step,
    and the orthogonal term [sqrt (1 - rho^2) * dW2[p, i]] is zero. *)
Theorem C8_rho_minus_one (dW1 : tensor3) (dW2 : tensor2) (p i : nat)
    (x z w : R) :
  entry dW1 p i = Some (x, z) -> entry dW2 p i = Some w ->
  entry (dB (-1) dW1 dW2) p i = Some (- x) /\
  torch_sqrt (1 - -1 * -1) * w = 0.
Proof.
  intros H1 H2.
  assert (Hs : torch_sqrt (1 - -1 * -1) = 0).
  { unfold torch_sqrt. replace (1 - -1 * -1) with 0 by lra. apply sqrt_0. }
  split; [|rewrite Hs; lra].
  unfold dB.
  rewrite (entry_tzip _ _ _ _ _ (-1 * x) (torch_sqrt (1 - -1 * -1) * w)).
  - f_equal. rewrite Hs. lra.
  - rewrite entry_tmap. unfold select0. rewrite entry_map, H1. reflexivity.
  - rewrite entry_tmap, H2. reflexivity.
Qed.

Lemma C8_rho_minus_one_witness :
  entry (dB (-1) [[(3, 5); (2, 1)]] [[7; 4]]) 0 1 = Some (- 2) /\
  torch_sqrt (1 - -1 * -1) * 4 = 0.
Proof.
  apply (C8_rho_minus_one [[(3, 5); (2, 1)]] [[7; 4]] 0 1 2 1 4);
    reflexivity.
Defined.

(** ** Dependence on the random stream *)

Lemma sample_Raise (d : MultivariateNormal) (n m : Z) (g : Generator) :
  (n < 0 \/ m < 0)%Z -> sample d n m g = (Raise RuntimeError, g).
Proof.
  intros H. unfold sample.
  destruct (Z.ltb_spec n 0); [reflexivity|].
  destruct (Z.ltb_spec m 0); [reflexivity|lia].
Qed.

Lemma dW1_of_same_draws d N K g1 g2 :
  same_draws (N * K * 2) g1 g2 -> dW1_of d N K g1 = dW1_of d N K g2.
Proof.
  intros [Hc Hd]. unfold dW1_of.
  apply map_ext_in. intros p Hp. apply in_seq in Hp.
  apply map_ext_in. intros i Hi. apply in_seq in Hi.
  rewrite (Hd (2 * (p * K + i))%nat) by nia.
  rewrite (Hd (2 * (p * K + i) + 1)%nat) by nia. reflexivity.
Qed.

Lemma dW2_of_same_draws N K n g1 g2 :
  same_draws (n + N * K) g1 g2 ->
  dW2_of N K (mkGenerator (draws g1) (consumed g1 + n))
  = dW2_of N K (mkGenerator (draws g2) (consumed g2 + n)).
Proof.
  intros [Hc Hd]. unfold dW2_of. simpl.
  apply map_ext_in. intros p Hp. apply in_seq in Hp.
  apply map_ext_in. intros i Hi. apply in_seq in Hi.
  rewrite <- !Nat.add_assoc. apply Hd. nia.
Qed.

Lemma same_draws_le n m g1 g2 :
  (n <= m)%nat -> same_draws m g1 g2 -> same_draws n g1 g2.
Proof.
  intros Hle [Hc Hd]. split; [exact Hc|]. intros k Hk. apply Hd. lia.
Qed.

(** The variance of the outcome does not read [dW2]. *)
Lemma generate_from_increments_variance n_paths n_steps init_state
    alpha a r e dt (dW1 : tensor3) (dW2 dW2' : tensor2) :
  result_map SpotVarianceTuple.variance
    (generate_from_increments n_paths n_steps init_state alpha a r e dt
       dW1 dW2)
  = result_map SpotVarianceTuple.variance
      (generate_from_increments n_paths n_steps init_state alpha a r e dt
         dW1 dW2').
Proof.
  unfold generate_from_increments, result_map.
  destruct (gamma alpha n_steps) as [g|]; [|reflexivity]. simpl.
  destruct (GXi_convolve _ _ _) as [conv|]; [|reflexivity]. simpl.
  destruct (Y2 _ _) as [y2|]; [|reflexivity]. simpl.
  destruct (variance _ _ _ _ _ _) as [var|]; reflexivity.
Qed.

(** The outcome of a call, case by case. *)
Lemma generate_rough_bergomi_cases (n_paths n_steps : Z)
    (init_state : option (R * R)) (alpha rho eta xi dt : R) (g : Generator) :
  generate_rough_bergomi n_paths n_steps init_state alpha rho eta xi dt g =
  match new_dW1_generator dt alpha with
  | Raise e => (Raise e, g)
  | Ok d =>
      if ((n_paths <? 0) || (n_steps - 1 <? 0))%Z
      then (Raise RuntimeError, g)
      else
        (generate_from_increments n_paths n_steps
           (init_or_default init_state xi) alpha alpha rho eta dt
           (dW1_of d (Z.to_nat n_paths) (Z.to_nat (n_steps - 1)) g)
           (dW2_at n_paths n_steps g),
         after_draws n_paths n_steps g)
  end.
Proof.
  unfold generate_rough_bergomi, cast_state.
  unfold bind at 1. unfold py at 1.
  destruct (new_dW1_generator dt alpha) as [d|e]; [|reflexivity].
  destruct (orb _ _) eqn:Hneg.
  - apply orb_true_iff in Hneg.
    unfold bind at 1. rewrite sample_Raise; [reflexivity|].
    destruct Hneg as [H|H]; apply Z.ltb_lt in H; lia.
  - apply orb_false_iff in Hneg as [H1 H2].
    apply Z.ltb_ge in H1. apply Z.ltb_ge in H2.
    unfold bind at 1. rewrite sample_Ok by lia.
    unfold bind at 1. rewrite randn_Ok by lia. reflexivity.
Qed.

(** C9.  The outcome of a call is a function of the parameters and of the
    next [3 * n_paths * (n_steps - 1)] values of the random stream: two
    generators that deliver the same values give the same outcome.  The values
    are taken in a fixed order, first the [2 * n_paths * (n_steps - 1)] values
    of the bivariate draws, then those of the independent increments: the
    variance is settled by the first block alone, and a call that returns
    leaves the generator advanced by the whole count. *)
Theorem C9_deterministic (n_paths n_steps : Z) (init_state : option (R * R))
    (alpha rho eta xi dt : R) (g1 g2 : Generator) :
  let run := generate_rough_bergomi n_paths n_steps init_state alpha rho eta
               xi dt in
  let count := (Z.to_nat n_paths * Z.to_nat (n_steps - 1))%nat in
  (same_draws (3 * count) g1 g2 -> fst (run g1) = fst (run g2)) /\
  (same_draws (2 * count) g1 g2 ->
   result_map SpotVarianceTuple.variance (fst (run g1))
   = result_map SpotVarianceTuple.variance (fst (run g2))) /\
  (forall out g', run g1 = (Ok out, g') ->
     draws g' = draws g1 /\
     consumed g' = (consumed g1 + 3 * count)%nat).
Proof.
  intros run count. unfold run. rewrite !generate_rough_bergomi_cases.
  destruct (new_dW1_generator dt alpha) as [d|e].
  2:{ repeat split; try reflexivity; discriminate. }
  destruct (orb _ _).
  { repeat split; try reflexivity; discriminate. }
  cbn [fst snd]. split; [|split].
  - intros Hsame. unfold dW2_at.
    rewrite (dW1_of_same_draws d _ _ g1 g2)
      by (apply (same_draws_le _ (3 * count)); [unfold count; lia|exact Hsame]).
    rewrite (dW2_of_same_draws _ _ _ g1 g2)
      by (apply (same_draws_le _ (3 * count)); [unfold count; lia|exact Hsame]).
    reflexivity.
  - intros Hsame.
    rewrite (dW1_of_same_draws d _ _ g1 g2)
      by (apply (same_draws_le _ (2 * count)); [unfold count; lia|exact Hsame]).
    apply generate_from_increments_variance.
  - intros out g' H. injection H as _ <-. unfold after_draws. simpl.
    split; [reflexivity|]. unfold count. lia.
Qed.

Lemma same_draws_example (n : nat) :
  (n <= 100)%nat -> same_draws n example_generator example_generator_cut.
Proof.
  intros Hn. split; [reflexivity|]. intros k Hk. simpl.
  destruct (Nat.ltb_spec k 100); [reflexivity|lia].
Qed.

Lemma C9_deterministic_witness :
  fst (generate_rough_bergomi 2 5 None (-2/5) (-9/10) (19/10) (1/25) (1/250)
         example_generator)
  = fst (generate_rough_bergomi 2 5 None (-2/5) (-9/10) (19/10) (1/25) (1/250)
           example_generator_cut).
Proof.
  apply (C9_deterministic 2 5 None (-2/5) (-9/10) (19/10) (1/25) (1/250)
           example_generator example_generator_cut).
  apply same_draws_example. simpl. lia.
Defined.

(** ** Inputs the call refuses *)

(** A non-positive [dt] never yields a distribution: either a float operation
    raises or the covariance matrix is refused. *)
Lemma new_dW1_generator_dt_nonpos (dt alpha : R) :
  dt <= 0 -> exists e, new_dW1_generator dt alpha = Raise e.
Proof.
  intros Hdt. unfold new_dW1_generator.
  destruct (py_pow dt (alpha + 1)) as [p1|e]; [|eexists; reflexivity]. simpl.
  destruct (py_truediv p1 (alpha + 1)) as [c1|e]; [|eexists; reflexivity].
  simpl.
  destruct (py_pow dt (2 * alpha + 1)) as [p2|e]; [|eexists; reflexivity].
  simpl.
  destruct (py_truediv p2 (2 * alpha + 1)) as [c2|e];
    [|eexists; reflexivity].
  simpl. unfold new_MultivariateNormal.
  destruct c1 as [b|]; [|eexists; reflexivity].
  destruct c2 as [c|]; [|eexists; reflexivity].
  destruct (Req_EM_T b b); [|eexists; reflexivity].
  destruct (Rlt_dec 0 dt); [lra|eexists; reflexivity].
Qed.


(** Without a path there is no output channel for the convolution. *)
Lemma generate_from_increments_no_path n_steps init_state alpha a r e dt
    (dW2 : tensor2) :
  exists err,
    generate_from_increments 0 n_steps init_state alpha a r e dt [] dW2
    = Raise err.
Proof.
  unfold generate_from_increments.
  destruct (gamma alpha n_steps) as [g|err]; [|eexists; reflexivity]. simpl.
  unfold GXi_convolve, conv1d. simpl.
  destruct (Z.ltb _ _); eexists; reflexivity.
Qed.






(** * Further properties of the function *)

(** ** Rows of the returned tensors *)

Lemma tmap_row f (t : tensor2) p :
  tmap f t !! p = map f <$> t !! p.
Proof. unfold tmap. apply list_lookup_fmap. Qed.

Lemma tzip_row f (a b : tensor2) p ra rb :
  a !! p = Some ra -> b !! p = Some rb ->
  tzip f a b !! p = Some (zip_with f ra rb).
Proof.
  intros Ha Hb. unfold tzip. rewrite lookup_zip_with, Ha, Hb. reflexivity.
Qed.

Lemma cat_last_row (a b : tensor2) p ra rb :
  a !! p = Some ra -> b !! p = Some rb ->
  cat_last a b !! p = Some (ra ++ rb).
Proof.
  intros Ha Hb. unfold cat_last. rewrite lookup_zip_with, Ha, Hb. reflexivity.
Qed.

Lemma volterra_row n_paths n_steps alpha (dW1 : tensor3) p r1 :
  (p < Z.to_nat n_paths)%nat -> dW1 !! p = Some r1 ->
  volterra n_paths n_steps alpha dW1 !! p = Some (path_Y n_steps alpha r1).
Proof.
  intros Hp Hr. unfold volterra, Y. rewrite tmap_row.
  rewrite (tzip_row _ _ _ _ (0 :: map snd r1)
             (map (causal_sum (gamma_list alpha n_steps) (map fst r1))
                  (seq 0 (Z.to_nat n_steps)))).
  - reflexivity.
  - unfold Y1. rewrite (cat_last_row _ _ _ (replicate 1 0) (map snd r1)).
    + reflexivity.
    + unfold zeros2. apply lookup_replicate_2. exact Hp.
    + unfold select1. rewrite list_lookup_fmap, Hr. reflexivity.
  - unfold Y2_direct, select0. rewrite !list_lookup_fmap, Hr. reflexivity.
Qed.

Lemma dB_row rho dt (dW1 : tensor3) (dW2 : tensor2) p r1 r2 :
  dW1 !! p = Some r1 -> dW2 !! p = Some r2 ->
  dB rho dW1 (tmap (fun x => x * torch_sqrt dt) dW2) !! p
  = Some (path_dB rho dt r1 r2).
Proof.
  intros H1 H2. unfold dB, path_dB.
  rewrite (tzip_row _ _ _ _ (map (fun x => rho * x) (map fst r1))
             (map (fun x => torch_sqrt (1 - rho * rho) * x)
                (map (fun x => x * torch_sqrt dt) r2))); [reflexivity| |].
  - rewrite tmap_row. unfold select0. rewrite list_lookup_fmap, H1.
    reflexivity.
  - rewrite !tmap_row, H2. reflexivity.
Qed.

Lemma paths_row n_paths n_steps init_state alpha rho eta dt
    (dW1 : tensor3) (dW2 : tensor2) p r1 r2 :
  (p < Z.to_nat n_paths)%nat -> dW1 !! p = Some r1 -> dW2 !! p = Some r2 ->
  let out := paths n_paths n_steps init_state alpha rho eta dt dW1 dW2 in
  let vrow := path_variance (snd init_state) eta alpha dt n_steps r1 in
  SpotVarianceTuple.variance out !! p = Some vrow /\
  SpotVarianceTuple.spot out !! p
  = Some (path_spot (fst init_state) dt vrow (path_dB rho dt r1 r2)).
Proof.
  intros Hp H1 H2 out vrow.
  assert (Hv : SpotVarianceTuple.variance out !! p = Some vrow).
  { unfold out, paths. cbn [SpotVarianceTuple.variance]. unfold variance_rows.
    rewrite list_lookup_fmap, (volterra_row _ _ _ _ _ r1 Hp H1). reflexivity. }
  split; [exact Hv|].
  unfold out, paths. cbn [SpotVarianceTuple.spot]. unfold prices.
  rewrite tmap_row. unfold log_return.
  rewrite (cat_last_row _ _ _ (replicate 1 0)
             (cumsum_from 0
                (path_increments dt vrow (path_dB rho dt r1 r2)))).
  - reflexivity.
  - unfold zeros2. apply lookup_replicate_2. exact Hp.
  - unfold cumsum. rewrite list_lookup_fmap. unfold increments.
    rewrite (tzip_row _ _ _ _ (take (length vrow - 1) vrow)
               (path_dB rho dt r1 r2)).
    + reflexivity.
    + unfold drop_last_col. rewrite list_lookup_fmap.
      unfold out, paths in Hv. cbn [SpotVarianceTuple.variance] in Hv.
      rewrite Hv. reflexivity.
    + apply dB_row; assumption.
Qed.

(** ** The parameters the call accepts *)

Lemma covariance_determinant (dt alpha : R) :
  0 < dt -> alpha + 1 <> 0 -> 2 * alpha + 1 <> 0 ->
  dt * cov2 dt alpha - cov1 dt alpha * cov1 dt alpha
  = Rpower dt (alpha + 1) * Rpower dt (alpha + 1)
    * (alpha * alpha / ((2 * alpha + 1) * ((alpha + 1) * (alpha + 1)))).
Proof.
  intros Hdt Ha1 Ha2. unfold cov1, cov2.
  set (P := Rpower dt (alpha + 1)). set (Q := Rpower dt (2 * alpha + 1)).
  assert (HPQ : dt * Q = P * P).
  { unfold P, Q. rewrite <- (Rpower_1 dt) at 1 by exact Hdt.
    rewrite <- !Rpower_plus. f_equal. lra. }
  transitivity ((dt * Q) / (2 * alpha + 1)
                - (P * P) / ((alpha + 1) * (alpha + 1))).
  - field. split; assumption.
  - rewrite HPQ. field. split; assumption.
Qed.

Lemma new_dW1_generator_inv (dt alpha : R) (d : MultivariateNormal) :
  new_dW1_generator dt alpha = Ok d ->
  0 < dt /\ -1 / 2 < alpha /\ alpha <> 0.
Proof.
  intros H.
  assert (Hdt : 0 < dt).
  { destruct (Rlt_dec 0 dt) as [Hd|Hd]; [exact Hd|].
    destruct (new_dW1_generator_dt_nonpos dt alpha) as [e He]; [lra|].
    congruence. }
  split; [exact Hdt|].
  unfold new_dW1_generator in H. rewrite !py_pow_pos in H by exact Hdt.
  simpl in H. unfold py_truediv in H.
  destruct (Req_EM_T (alpha + 1) 0) as [|Ha1]; [discriminate|]. simpl in H.
  destruct (Req_EM_T (2 * alpha + 1) 0) as [|Ha2]; [discriminate|].
  simpl in H. unfold new_MultivariateNormal in H.
  destruct (Req_EM_T _ _); [|discriminate].
  destruct (Rlt_dec 0 dt); [|discriminate].
  destruct (Rlt_dec 0 _) as [Hpd|]; [|discriminate].
  fold (cov1 dt alpha) in Hpd. fold (cov2 dt alpha) in Hpd.
  rewrite covariance_determinant in Hpd by assumption.
  assert (HP : 0 < Rpower dt (alpha + 1) * Rpower dt (alpha + 1)).
  { apply Rmult_lt_0_compat; apply exp_pos. }
  assert (Hq : 0 < alpha * alpha
                   / ((2 * alpha + 1) * ((alpha + 1) * (alpha + 1)))).
  { destruct (Rlt_dec 0 (alpha * alpha
       / ((2 * alpha + 1) * ((alpha + 1) * (alpha + 1))))) as [Hq|Hq];
      [exact Hq|].
    exfalso. apply Rnot_lt_le in Hq.
    assert (Rpower dt (alpha + 1) * Rpower dt (alpha + 1)
            * (alpha * alpha
               / ((2 * alpha + 1) * ((alpha + 1) * (alpha + 1)))) <= 0).
    { rewrite <- (Rmult_0_r (Rpower dt (alpha + 1) * Rpower dt (alpha + 1))).
      apply Rmult_le_compat_l; [lra|exact Hq]. }
    lra. }
  assert (Hsq : 0 < (alpha + 1) * (alpha + 1)) by nra.
  split.
  - destruct (Rlt_dec (-1 / 2) alpha) as [Hl|Hl]; [exact Hl|]. exfalso.
    assert (Hneg : 2 * alpha + 1 < 0) by lra.
    assert (Hden : (2 * alpha + 1) * ((alpha + 1) * (alpha + 1)) < 0) by nra.
    assert (0 <= alpha * alpha) by nra.
    assert (alpha * alpha
            / ((2 * alpha + 1) * ((alpha + 1) * (alpha + 1))) <= 0).
    { unfold Rdiv.
      pose proof (Rinv_lt_0_compat _ Hden) as Hinv. nra. }
    lra.
  - intros ->. rewrite Rmult_0_l in Hq. unfold Rdiv in Hq.
    rewrite Rmult_0_l in Hq. lra.
Qed.

Lemma generate_rough_bergomi_Ok_inv (n_paths n_steps : Z)
    (init_state : option (R * R)) (alpha rho eta xi dt : R)
    (g g' : Generator) (out : SpotVarianceTuple.t) :
  generate_rough_bergomi n_paths n_steps init_state alpha rho eta xi dt g
  = (Ok out, g') ->
  (1 <= n_paths)%Z /\ (2 <= n_steps)%Z /\ 0 < dt /\ -1 / 2 < alpha /\
  alpha <> 0.
Proof.
  intros H. rewrite generate_rough_bergomi_cases in H.
  destruct (new_dW1_generator dt alpha) as [d|e] eqn:Hhead; [|discriminate].
  apply new_dW1_generator_inv in Hhead as (Hdt & Ha & Ha0).
  destruct (orb _ _) eqn:Hneg; [discriminate|].
  apply orb_false_iff in Hneg as [H1 H2].
  apply Z.ltb_ge in H1. apply Z.ltb_ge in H2.
  injection H as H _.
  assert (Hs : (2 <= n_steps)%Z).
  { unfold generate_from_increments in H.
    destruct (gamma alpha n_steps) as [gm|] eqn:Hg; [|discriminate].
    apply gamma_inv in Hg. tauto. }
  assert (Hp : n_paths <> 0%Z).
  { intros ->.
    destruct (generate_from_increments_no_path n_steps
                (init_or_default init_state xi) alpha alpha rho eta dt
                (dW2_at 0 n_steps g)) as [err Herr].
    change (dW1_of d (Z.to_nat 0) (Z.to_nat (n_steps - 1)) g)
      with (@nil (list (R * R))) in H.
    congruence. }
  repeat split; assumption || lia.
Qed.

(** X1.  A call returns only for [n_paths >= 1], [n_steps >= 2], [dt > 0],
    [alpha > -1/2] and [alpha <> 0]: on every input outside this set it
    raises. *)
Theorem X1_returns_only_if (n_paths n_steps : Z)
    (init_state : option (R * R)) (alpha rho eta xi dt : R)
    (g g' : Generator) (out : SpotVarianceTuple.t) :
  generate_rough_bergomi n_paths n_steps init_state alpha rho eta xi dt g
  = (Ok out, g') ->
  (1 <= n_paths)%Z /\ (2 <= n_steps)%Z /\ 0 < dt /\ -1 / 2 < alpha /\
  alpha <> 0.
Proof. apply generate_rough_bergomi_Ok_inv. Qed.

Lemma X1_returns_only_if_witness :
  (1 <= 2)%Z /\ (2 <= 5)%Z /\ 0 < 1/250 /\ -1 / 2 < -2/5 /\ -2/5 <> 0.
Proof.
  apply (X1_returns_only_if 2 5 None (-2/5) (-9/10) (19/10) (1/25) (1/250)
           example_generator (after_draws 2 5 example_generator)
           (paths 2 5 (init_or_default None (1/25)) (-2/5) (-9/10) (19/10)
              (1/250) (dW1_at 2 5 (-2/5) (1/250) example_generator)
              (dW2_at 2 5 example_generator))).
  apply generate_rough_bergomi_Ok; lra || lia.
Defined.

(** X2.  Every returned pair has both tensors of shape
    [(n_paths, n_steps)]. *)
Theorem X2_output_shape (n_paths n_steps : Z) (init_state : option (R * R))
    (alpha rho eta xi dt : R) (g g' : Generator)
    (out : SpotVarianceTuple.t) :
  generate_rough_bergomi n_paths n_steps init_state alpha rho eta xi dt g
  = (Ok out, g') ->
  has_shape (Z.to_nat n_paths) (Z.to_nat n_steps)
    (SpotVarianceTuple.spot out) /\
  has_shape (Z.to_nat n_paths) (Z.to_nat n_steps)
    (SpotVarianceTuple.variance out).
Proof.
  intros H.
  destruct (generate_rough_bergomi_Ok_inv _ _ _ _ _ _ _ _ _ _ _ H)
    as (Hp & Hs & Hdt & Ha & Ha0).
  rewrite generate_rough_bergomi_Ok in H by assumption.
  injection H as <- _.
  apply has_shape_paths; [lia| |].
  - apply has_shape_dW1_at.
  - apply has_shape_dW2_at.
Qed.

Lemma X2_output_shape_witness :
  has_shape (Z.to_nat 2) (Z.to_nat 5)
    (SpotVarianceTuple.spot
       (paths 2 5 (init_or_default None (1/25)) (-2/5) (-9/10) (19/10)
          (1/250) (dW1_at 2 5 (-2/5) (1/250) example_generator)
          (dW2_at 2 5 example_generator))) /\
  has_shape (Z.to_nat 2) (Z.to_nat 5)
    (SpotVarianceTuple.variance
       (paths 2 5 (init_or_default None (1/25)) (-2/5) (-9/10) (19/10)
          (1/250) (dW1_at 2 5 (-2/5) (1/250) example_generator)
          (dW2_at 2 5 example_generator))).
Proof.
  apply (X2_output_shape 2 5 None (-2/5) (-9/10) (19/10) (1/25) (1/250)
           example_generator (after_draws 2 5 example_generator)).
  apply generate_rough_bergomi_Ok; lra || lia.
Defined.

(** ** The cumulative log-return *)







(** ** What the variance depends on *)

Lemma map_zip_with {A B C D} (h : C -> D) (f : A -> B -> C)
    (a : list A) (b : list B) :
  map h (zip_with f a b) = zip_with (fun x y => h (f x y)) a b.
Proof.
  revert b. induction a as [|x a IH]; intros [|y b]; simpl; try reflexivity.
  rewrite IH. reflexivity.
Qed.

Lemma variance_rows_factor (V0 eta alpha dt : R) (n_steps : Z) (y : tensor2) :
  variance_rows V0 eta alpha dt n_steps y
  = tmap (fun f => V0 * f) (variance_rows 1 eta alpha dt n_steps y).
Proof.
  unfold variance_rows, tmap. rewrite map_map.
  apply map_ext. intros row. rewrite map_zip_with.
  apply zip_with_ext; [|reflexivity..]. intros s d. lra.
Qed.

(** X4.  The initial variance enters the variance as one outer factor: on a
    call that returns there is a tensor [F], the exponential of lines
    132-137, such that the variance is [V0 * F] entry by entry, and the call
    with any other initial state, correlation and [xi] on the same generator
    returns the variance [V0' * F] with the same [F]. *)
Theorem X4_variance_factor (n_paths n_steps : Z) (S0 V0 : R)
    (alpha rho eta xi dt : R) (g g' : Generator)
    (out : SpotVarianceTuple.t) :
  generate_rough_bergomi n_paths n_steps (Some (S0, V0)) alpha rho eta xi dt g
  = (Ok out, g') ->
  exists F : tensor2,
    SpotVarianceTuple.variance out = tmap (fun f => V0 * f) F /\
    forall S0' V0' rho' xi' : R,
      exists out',
        generate_rough_bergomi n_paths n_steps (Some (S0', V0')) alpha rho'
          eta xi' dt g = (Ok out', g') /\
        SpotVarianceTuple.variance out' = tmap (fun f => V0' * f) F.
Proof.
  intros H.
  destruct (generate_rough_bergomi_Ok_inv _ _ _ _ _ _ _ _ _ _ _ H)
    as (Hnp & Hs & Hdt & Ha & Ha0).
  rewrite generate_rough_bergomi_Ok in H by assumption.
  injection H as <- <-.
  exists (variance_rows 1 eta alpha dt n_steps
            (volterra n_paths n_steps alpha
               (dW1_at n_paths n_steps alpha dt g))).
  split; [apply variance_rows_factor|].
  intros S0' V0' rho' xi'. eexists. split.
  - apply generate_rough_bergomi_Ok; assumption.
  - apply variance_rows_factor.
Qed.

Lemma X4_variance_factor_witness :
  exists F : tensor2,
    SpotVarianceTuple.variance
      (paths 2 5 (1, 1/25) (-2/5) (-9/10) (19/10) (1/250)
         (dW1_at 2 5 (-2/5) (1/250) example_generator)
         (dW2_at 2 5 example_generator))
    = tmap (fun f => 1/25 * f) F /\
    forall S0' V0' rho' xi' : R,
      exists out',
        generate_rough_bergomi 2 5 (Some (S0', V0')) (-2/5) rho' (19/10) xi'
          (1/250) example_generator
        = (Ok out', after_draws 2 5 example_generator) /\
        SpotVarianceTuple.variance out' = tmap (fun f => V0' * f) F.
Proof.
  apply (X4_variance_factor 2 5 1 (1/25) (-2/5) (-9/10) (19/10) (1/25)
           (1/250) example_generator (after_draws 2 5 example_generator)).
  apply generate_rough_bergomi_Ok; lra || lia.
Defined.

Lemma generate_from_increments_variance_only n_paths n_steps (S0 S0' V0 : R)
    alpha a r r' e dt (dW1 : tensor3) (dW2 dW2' : tensor2) :
  result_map SpotVarianceTuple.variance
    (generate_from_increments n_paths n_steps (S0, V0) alpha a r e dt
       dW1 dW2)
  = result_map SpotVarianceTuple.variance
      (generate_from_increments n_paths n_steps (S0', V0) alpha a r' e dt
         dW1 dW2').
Proof.
  unfold generate_from_increments, result_map.
  destruct (gamma alpha n_steps) as [gm|]; [|reflexivity]. simpl.
  destruct (GXi_convolve _ _ _) as [conv|]; [|reflexivity]. simpl.
  destruct (Y2 _ _) as [y2|]; [|reflexivity]. simpl.
  destruct (variance V0 _ _ _ _ _) as [var|]; reflexivity.
Qed.

(** X5.  The variance does not depend on the correlation [rho] nor on the
    initial spot: two calls on the same generator that differ in [rho] and in
    the first entry of [init_state] only have the same variance outcome. *)
Theorem X5_variance_autonomous (n_paths n_steps : Z) (S0 S0' V0 : R)
    (alpha rho rho' eta xi dt : R) (g : Generator) :
  result_map SpotVarianceTuple.variance
    (fst (generate_rough_bergomi n_paths n_steps (Some (S0, V0)) alpha
            rho eta xi dt g))
  = result_map SpotVarianceTuple.variance
      (fst (generate_rough_bergomi n_paths n_steps (Some (S0', V0)) alpha
              rho' eta xi dt g)).
Proof.
  rewrite !generate_rough_bergomi_cases.
  destruct (new_dW1_generator dt alpha) as [d|]; [|reflexivity].
  destruct (orb _ _); [reflexivity|].
  cbn [fst init_or_default].
  apply generate_from_increments_variance_only.
Qed.

(** X6.  Without volatility of volatility the variance is constant: for
    [eta = 0] every entry of the returned variance is [V0]. *)
Theorem X6_eta_zero (n_paths n_steps : Z) (init_state : option (R * R))
    (alpha rho xi dt : R) (g g' : Generator) (out : SpotVarianceTuple.t) :
  generate_rough_bergomi n_paths n_steps init_state alpha rho 0 xi dt g
  = (Ok out, g') ->
  Forall (Forall (fun v => v = snd (init_or_default init_state xi)))
    (SpotVarianceTuple.variance out).
Proof.
  intros H.
  destruct (generate_rough_bergomi_Ok_inv _ _ _ _ _ _ _ _ _ _ _ H)
    as (Hnp & Hs & Hdt & Ha & Ha0).
  rewrite generate_rough_bergomi_Ok in H by assumption.
  injection H as <- _. cbn [paths SpotVarianceTuple.variance].
  unfold variance_rows. rewrite Forall_fmap. apply Forall_forall.
  intros row _. simpl. apply Forall_lookup. intros i v Hv.
  apply lookup_zip_with_Some in Hv as (s & d & -> & _ & Hd).
  rewrite list_lookup_fmap in Hd.
  destruct (seq 0 (Z.to_nat n_steps) !! i) as [k|]; [|discriminate].
  injection Hd as <-. unfold drift.
  replace (0 * s - 0.5 * (0 * 0) * torch_pow (INR k * dt) (2 * alpha + 1))
    with 0 by lra.
  rewrite exp_0. lra.
Qed.

Lemma X6_eta_zero_witness :
  Forall (Forall (fun v => v = snd (init_or_default None (1/25))))
    (SpotVarianceTuple.variance
       (paths 2 5 (init_or_default None (1/25)) (-2/5) (-9/10) 0 (1/250)
          (dW1_at 2 5 (-2/5) (1/250) example_generator)
          (dW2_at 2 5 example_generator))).
Proof.
  apply (X6_eta_zero 2 5 None (-2/5) (-9/10) (1/25) (1/250)
           example_generator (after_draws 2 5 example_generator)).
  apply generate_rough_bergomi_Ok; lra || lia.
Defined.

(** ** The kernel weights in closed form *)





(** ** The first two time indices *)

Lemma causal_sum_lag (g xi : list R) (i : nat) :
  nth 1 g 0 = 0 ->
  causal_sum g xi i
  = sum_below (i - 1) (fun j => nth (i - j) g 0 * nth j xi 0).
Proof.
  intros Hg1. unfold causal_sum. destruct i as [|i]; [reflexivity|].
  cbn [sum_below]. replace (S i - 1)%nat with i by lia.
  replace (S i - i)%nat with 1%nat by lia. rewrite Hg1. lra.
Qed.

(** X8.  Because the first two kernel weights are zero, the convolution term
    reaches back two steps at least: [Y2[i]] is the sum over [j <= i - 2] of
    [gamma[i - j] * dW1[j]], it is zero for [i = 0] and [i = 1], and the
    Volterra entry at the first step is the exact near-term draw alone,
    [Y[1] = sqrt (2 alpha + 1) * dW1[0, 1]]. *)
Theorem X8_convolution_lag (n_paths n_steps : Z) (alpha : R)
    (_gamma : list R) (dW1 : tensor3) (p : nat) (row : list (R * R)) :
  gamma alpha n_steps = Ok _gamma ->
  (1 <= n_paths)%Z ->
  has_shape (Z.to_nat n_paths) (Z.to_nat (n_steps - 1)) dW1 ->
  dW1 !! p = Some row ->
  exists conv y2,
    GXi_convolve _gamma (select0 dW1) n_steps = Ok conv /\
    Y2 conv n_steps = Ok y2 /\
    (forall i, (i < Z.to_nat n_steps)%nat ->
       entry y2 p i
       = Some (sum_below (i - 1)
                 (fun j => nth (i - j) _gamma 0 * nth j (map fst row) 0))) /\
    entry y2 p 0 = Some 0 /\ entry y2 p 1 = Some 0 /\
    entry (Y alpha (Y1 n_paths dW1) y2) p 1
    = Some (torch_sqrt (2 * alpha + 1) * nth 0 (map snd row) 0).
Proof.
  intros Hg Hp Hsh Hrow. apply gamma_inv in Hg as (Hs & Ha0 & ->).
  destruct (volterra_pipeline n_paths n_steps alpha dW1 Hs Hp Hsh)
    as [Hconv Hy2].
  eexists _, _. split; [exact Hconv|]. split; [exact Hy2|].
  assert (Hxi : select0 dW1 !! p = Some (map fst row)).
  { unfold select0. rewrite list_lookup_fmap, Hrow. reflexivity. }
  assert (Hlag : forall i, (i < Z.to_nat n_steps)%nat ->
    entry (Y2_direct (gamma_list alpha n_steps) n_steps (select0 dW1)) p i
    = Some (sum_below (i - 1)
              (fun j => nth (i - j) (gamma_list alpha n_steps) 0
                        * nth j (map fst row) 0))).
  { intros i Hi. rewrite (entry_Y2_direct _ _ _ _ _ _ Hxi Hi).
    f_equal. apply causal_sum_lag. reflexivity. }
  split; [exact Hlag|].
  split; [apply Hlag; lia|]. split; [apply Hlag; lia|].
  destruct Hsh as [Hn Hm]. rewrite Forall_lookup in Hm.
  pose proof (Hm p row Hrow) as Hlen. simpl in Hlen.
  assert (Hpn : (p < Z.to_nat n_paths)%nat)
    by (apply lookup_lt_Some in Hrow; lia).
  pose proof (entry_volterra n_paths n_steps alpha dW1 p 1 row Hpn Hrow Hlen
                ltac:(lia)) as HY.
  unfold volterra in HY. rewrite HY. f_equal.
  rewrite causal_sum_lag by reflexivity. simpl. lra.
Qed.

Lemma X8_convolution_lag_witness :
  exists conv y2,
    GXi_convolve (gamma_list (-2/5) 3) (select0 [[(1, 2); (3, 4)]]) 3
    = Ok conv /\
    Y2 conv 3 = Ok y2 /\
    (forall i, (i < Z.to_nat 3)%nat ->
       entry y2 0 i
       = Some (sum_below (i - 1)
                 (fun j => nth (i - j) (gamma_list (-2/5) 3) 0
                           * nth j (map fst [(1, 2); (3, 4)]) 0))) /\
    entry y2 0 0 = Some 0 /\ entry y2 0 1 = Some 0 /\
    entry (Y (-2/5) (Y1 1 [[(1, 2); (3, 4)]]) y2) 0 1
    = Some (torch_sqrt (2 * (-2/5) + 1) * nth 0 (map snd [(1, 2); (3, 4)]) 0).
Proof.
  apply (X8_convolution_lag 1 3 (-2/5) (gamma_list (-2/5) 3)
           [[(1, 2); (3, 4)]] 0 [(1, 2); (3, 4)]).
  - apply gamma_Ok; [lia|lra].
  - lia.
  - split; [reflexivity|]. repeat constructor.
  - reflexivity.
Defined.

(** ** Which exception *)

Lemma new_dW1_generator_zero_division (dt alpha : R) :
  0 < dt -> alpha = -1 \/ alpha = -1 / 2 ->
  new_dW1_generator dt alpha = Raise ZeroDivisionError.
Proof.
  intros Hdt Ha. unfold new_dW1_generator.
  rewrite !py_pow_pos by exact Hdt. simpl. unfold py_truediv.
  destruct (Req_EM_T (alpha + 1) 0) as [|Ha1]; [reflexivity|]. simpl.
  destruct (Req_EM_T (2 * alpha + 1) 0) as [|Ha2]; [reflexivity|].
  exfalso. destruct Ha as [->| ->]; lra.
Qed.

(** X9.  With a positive [dt], a shape parameter on one of the two poles of
    the covariance entries, [alpha = -1] or [alpha = -1/2], makes the call
    raise [ZeroDivisionError], the generator being left untouched. *)
Theorem X9_alpha_poles (n_paths n_steps : Z)
    (init_state : option (R * R)) (alpha rho eta xi dt : R) (g : Generator) :
  0 < dt -> alpha = -1 \/ alpha = -1 / 2 ->
  generate_rough_bergomi n_paths n_steps init_state alpha rho eta xi dt g
  = (Raise ZeroDivisionError, g).
Proof.
  intros Hdt Ha. rewrite generate_rough_bergomi_cases.
  rewrite new_dW1_generator_zero_division by assumption. reflexivity.
Qed.

Lemma X9_alpha_poles_witness :
  generate_rough_bergomi 2 5 None (-1/2) (-9/10) (19/10) (1/25) (1/250)
    example_generator
  = (Raise ZeroDivisionError, example_generator).
Proof.
  apply (X9_alpha_poles 2 5 None (-1/2) (-9/10) (19/10) (1/25) (1/250)
           example_generator); [lra|]. right. lra.
Defined.

(** ** Paths do not interact *)

(** X10.  Each path is computed from its own increments alone: row [p] of the
    spot and of the variance returned on tensors [dW1] and [dW2] is the single
    row returned by the same transform run with one path on row [p] of [dW1]
    and row [p] of [dW2]. *)
Theorem X10_path_independent (n_paths n_steps : Z) (init_state : R * R)
    (alpha rho eta dt : R) (dW1 : tensor3) (dW2 : tensor2) (p : nat)
    (r1 : list (R * R)) (r2 : list R) :
  (2 <= n_steps)%Z -> alpha <> 0 ->
  has_shape (Z.to_nat n_paths) (Z.to_nat (n_steps - 1)) dW1 ->
  has_shape (Z.to_nat n_paths) (Z.to_nat (n_steps - 1)) dW2 ->
  dW1 !! p = Some r1 -> dW2 !! p = Some r2 ->
  exists out out1 srow vrow,
    generate_from_increments n_paths n_steps init_state alpha alpha rho eta
      dt dW1 dW2 = Ok out /\
    generate_from_increments 1 n_steps init_state alpha alpha rho eta dt
      [r1] [r2] = Ok out1 /\
    SpotVarianceTuple.spot out !! p = Some srow /\
    SpotVarianceTuple.spot out1 = [srow] /\
    SpotVarianceTuple.variance out !! p = Some vrow /\
    SpotVarianceTuple.variance out1 = [vrow].
Proof.
  intros Hs Ha0 [Hn1 Hm1] [Hn2 Hm2] Hr1 Hr2.
  assert (Hp : (p < Z.to_nat n_paths)%nat)
    by (apply lookup_lt_Some in Hr1; lia).
  pose proof Hm1 as Hm1'. rewrite Forall_lookup in Hm1'.
  pose proof (Hm1' p r1 Hr1) as Hl1. simpl in Hl1.
  eexists _, _, _, _. split; [|split].
  - apply generate_from_increments_Ok; try assumption.
    intros ->. discriminate.
  - apply generate_from_increments_Ok; try assumption.
    + discriminate.
    + repeat constructor. exact Hl1.
  - destruct (paths_row n_paths n_steps init_state alpha rho eta dt dW1 dW2
                p r1 r2 Hp Hr1 Hr2) as [Hv Hsp].
    split; [exact Hsp|]. split; [reflexivity|].
    split; [exact Hv|reflexivity].
Qed.

Lemma X10_path_independent_witness :
  exists out out1 srow vrow,
    generate_from_increments 2 3 (1, 1/25) (-2/5) (-2/5) (-9/10) (19/10)
      (1/250) [[(1, 2); (3, 4)]; [(5, 6); (7, 8)]] [[1; 2]; [3; 4]]
    = Ok out /\
    generate_from_increments 1 3 (1, 1/25) (-2/5) (-2/5) (-9/10) (19/10)
      (1/250) [[(5, 6); (7, 8)]] [[3; 4]] = Ok out1 /\
    SpotVarianceTuple.spot out !! 1%nat = Some srow /\
    SpotVarianceTuple.spot out1 = [srow] /\
    SpotVarianceTuple.variance out !! 1%nat = Some vrow /\
    SpotVarianceTuple.variance out1 = [vrow].
Proof.
  apply (X10_path_independent 2 3 (1, 1/25) (-2/5) (-9/10) (19/10) (1/250)
           [[(1, 2); (3, 4)]; [(5, 6); (7, 8)]] [[1; 2]; [3; 4]] 1
           [(5, 6); (7, 8)] [3; 4]).
  - lia.
  - lra.
  - split; [reflexivity|]. repeat constructor.
  - split; [reflexivity|]. repeat constructor.
  - reflexivity.
  - reflexivity.
Defined.

(** ** How the initial spot enters *)

(** X11.  Every returned pair starts at the initial spot:
    [spot[p, 0] = S0] on every path, the first entry of the cumulative
    log-return being the prepended zero. *)
Theorem X11_spot_first_column (n_paths n_steps : Z)
    (init_state : option (R * R)) (alpha rho eta xi dt : R)
    (g g' : Generator) (out : SpotVarianceTuple.t) (p : nat) :
  generate_rough_bergomi n_paths n_steps init_state alpha rho eta xi dt g
  = (Ok out, g') ->
  (p < Z.to_nat n_paths)%nat ->
  entry (SpotVarianceTuple.spot out) p 0
  = Some (fst (init_or_default init_state xi)).
Proof.
  intros H Hp.
  destruct (generate_rough_bergomi_Ok_inv _ _ _ _ _ _ _ _ _ _ _ H)
    as (Hnp & Hs & Hdt & Ha & Ha0).
  rewrite generate_rough_bergomi_Ok in H by assumption.
  injection H as <- _.
  apply paths_first_column; try assumption.
  - lia.
  - lra.
  - apply has_shape_dW1_at.
  - apply has_shape_dW2_at.
Qed.

Lemma X11_spot_first_column_witness :
  entry (SpotVarianceTuple.spot
           (paths 2 5 (init_or_default (Some (7, 1/25)) (1/25)) (-2/5) (-9/10)
              (19/10) (1/250)
              (dW1_at 2 5 (-2/5) (1/250) example_generator)
              (dW2_at 2 5 example_generator))) 1 0
  = Some (fst (init_or_default (Some (7, 1/25)) (1/25))).
Proof.
  apply (X11_spot_first_column 2 5 (Some (7, 1/25)) (-2/5) (-9/10) (19/10)
           (1/25) (1/250) example_generator
           (after_draws 2 5 example_generator)).
  - apply generate_rough_bergomi_Ok; lra || lia.
  - simpl. lia.
Defined.

Lemma prices_factor (S0 : R) (lr : tensor2) :
  prices S0 lr = tmap (fun e => S0 * e) (tmap exp lr).
Proof.
  unfold prices, tmap. rewrite map_map. apply map_ext. intros row.
  rewrite map_map. reflexivity.
Qed.

(** X12.  The initial spot enters the spot as one outer factor: on a call
    that returns there is a tensor [E], the exponential of the cumulative
    log-return, such that the spot is [S0 * E] entry by entry, and the call
    with any other initial spot on the same generator returns the spot
    [S0' * E] with the same [E] and the same variance. *)
Theorem X12_spot_factor (n_paths n_steps : Z) (S0 V0 : R)
    (alpha rho eta xi dt : R) (g g' : Generator)
    (out : SpotVarianceTuple.t) :
  generate_rough_bergomi n_paths n_steps (Some (S0, V0)) alpha rho eta xi dt g
  = (Ok out, g') ->
  exists E : tensor2,
    SpotVarianceTuple.spot out = tmap (fun e => S0 * e) E /\
    forall S0' : R,
      exists out',
        generate_rough_bergomi n_paths n_steps (Some (S0', V0)) alpha rho
          eta xi dt g = (Ok out', g') /\
        SpotVarianceTuple.spot out' = tmap (fun e => S0' * e) E /\
        SpotVarianceTuple.variance out' = SpotVarianceTuple.variance out.
Proof.
  intros H.
  destruct (generate_rough_bergomi_Ok_inv _ _ _ _ _ _ _ _ _ _ _ H)
    as (Hnp & Hs & Hdt & Ha & Ha0).
  rewrite generate_rough_bergomi_Ok in H by assumption.
  injection H as <- <-.
  eexists. split; [apply prices_factor|].
  intros S0'. eexists. split; [|split].
  - apply generate_rough_bergomi_Ok; assumption.
  - apply prices_factor.
  - reflexivity.
Qed.

Lemma X12_spot_factor_witness :
  exists E : tensor2,
    SpotVarianceTuple.spot
      (paths 2 5 (1, 1/25) (-2/5) (-9/10) (19/10) (1/250)
         (dW1_at 2 5 (-2/5) (1/250) example_generator)
         (dW2_at 2 5 example_generator))
    = tmap (fun e => 1 * e) E /\
    forall S0' : R,
      exists out',
        generate_rough_bergomi 2 5 (Some (S0', 1/25)) (-2/5) (-9/10) (19/10)
          (1/25) (1/250) example_generator
        = (Ok out', after_draws 2 5 example_generator) /\
        SpotVarianceTuple.spot out' = tmap (fun e => S0' * e) E /\
        SpotVarianceTuple.variance out'
        = SpotVarianceTuple.variance
            (paths 2 5 (1, 1/25) (-2/5) (-9/10) (19/10) (1/250)
               (dW1_at 2 5 (-2/5) (1/250) example_generator)
               (dW2_at 2 5 example_generator)).
Proof.
  apply (X12_spot_factor 2 5 1 (1/25) (-2/5) (-9/10) (19/10) (1/25)
           (1/250) example_generator (after_draws 2 5 example_generator)).
  apply generate_rough_bergomi_Ok; lra || lia.
Defined.

